(** * mobx-keystone: snapshot reconciliation, type-check caching and model
    property descriptors

    A shallow embedding of
    - [packages/lib/src/snapshot/reconcileSnapshot.ts]
      ([registerReconciler], [reconcileSnapshot], [detachIfNeeded]),
    - the [TypeChecker] class with its two invalidation entry points, and
    - [packages/lib/src/modelShared/prop.ts]
      ([prop], its builder methods and [getModelPropDefaultValue]),
    together with the properties the specification states about them.

    JavaScript objects are identified by their location; a reference also
    carries the class of the object it points to, which is all that the
    predicates [isMap], [isSet], [isArray], [isModel] and [typeof] look at.
    Numbers are abstracted as integers (no claim depends on floating point
    behaviour). *)

From stdpp Require Import gmap strings list fin_maps sorting.
From Stdlib Require Import ZArith Lia.

Local Open Scope string_scope.
Local Open Scope list_scope.

(** ** JavaScript values *)

Module JS.

Definition Loc := positive.

Inductive ObjClass :=
| CPlainObject | CArray | CMap | CSet | CModel | CFunction | COther.

Inductive JsValue :=
| VUndefined
| VNull
| VBoolean (b : bool)
| VNumber (n : Z)
| VString (s : string)
| VBigInt (n : Z)
| VObject (c : ObjClass) (l : Loc).

#[global] Instance ObjClass_eq_dec : EqDecision ObjClass.
Proof. solve_decision. Defined.

#[global] Instance JsValue_eq_dec : EqDecision JsValue.
Proof. solve_decision. Defined.

(** [a === b]: structural on primitives, by location on objects. *)
Definition strictEquals (a b : JsValue) : bool := bool_decide (a = b).

Definition typeof (v : JsValue) : string :=
  match v with
  | VUndefined => "undefined"
  | VNull => "object"
  | VBoolean _ => "boolean"
  | VNumber _ => "number"
  | VString _ => "string"
  | VBigInt _ => "bigint"
  | VObject CFunction _ => "function"
  | VObject _ _ => "object"
  end.

(** ToBoolean, as used by [if (x)], [x && y] and [!x]. *)
Definition truthy (v : JsValue) : bool :=
  match v with
  | VUndefined | VNull => false
  | VBoolean b => b
  | VNumber n | VBigInt n => negb (Z.eqb n 0)
  | VString s => negb (bool_decide (s = EmptyString))
  | VObject _ _ => true
  end.

(** Modelled from the spec: the predicates of [../utils], which the two
    files import.  [isPrimitive] accepts numbers, strings, booleans,
    bigints, [undefined] and [null] ("primitives pass through"); the
    container predicates test the class of the referenced object. *)
Definition isPrimitive (v : JsValue) : bool :=
  match v with
  | VObject _ _ => false
  | _ => true
  end.

Definition isMap (v : JsValue) : bool :=
  match v with VObject CMap _ => true | _ => false end.

Definition isSet (v : JsValue) : bool :=
  match v with VObject CSet _ => true | _ => false end.

Definition isArray (v : JsValue) : bool :=
  match v with VObject CArray _ => true | _ => false end.

Definition isObject (v : JsValue) : bool :=
  negb (strictEquals v VNull) && bool_decide (typeof v = "object").

Definition isModel (v : JsValue) : bool :=
  match v with VObject CModel _ => true | _ => false end.

(** A path element is [string | number]; a path is an array of them. *)
Definition PathElement : Type := string + Z.
Definition Path : Type := list PathElement.

(** [throw failure(msg)] and exceptions raised by callbacks. *)
Inductive Exception := Failure (msg : string).

Inductive Outcome (A : Type) :=
| Returned (a : A)
| Thrown (e : Exception).
Arguments Returned {A} a.
Arguments Thrown {A} e.

#[global] Instance Exception_eq_dec : EqDecision Exception.
Proof. solve_decision. Defined.

End JS.

Import JS.

(** ** reconcileSnapshot.ts *)

Module Reconcile.

(** The [{ parent, path }] record kept for every attached tree node. *)
Record ParentPath := { parent : Loc; path : PathElement }.

(** The part of the JavaScript heap the functions of this file touch. *)
Record Heap := {
  (** own properties of objects, elements of arrays *)
  fields : gmap Loc (gmap PathElement JsValue);
  (** parent/path metadata maintained by the tweaker *)
  objectParents : gmap Loc ParentPath
}.

(** Modelled from the spec: [ModelPool] ([../utils/ModelPool]) is imported
    as a type only; it is "an index of previously-seen tree nodes
    keyed by (type identifier, node id)" with the single query
    [findModelByTypeAndId], which yields the node or [undefined]. *)
Record ModelPool := {
  findModelByTypeAndId : JsValue -> JsValue -> JsValue
}.

(** [obj[key]] *)
Definition getProperty (h : Heap) (obj : JsValue) (key : PathElement) : JsValue :=
  match obj with
  | VObject _ l =>
      match fields h !! l with
      | Some fs => default VUndefined (fs !! key)
      | None => VUndefined
      end
  | _ => VUndefined
  end.

(** Modelled from the spec: [fastGetParentPathIncludingDataObjects] reads
    the parent/path metadata of a node, [undefined] for a root or an
    untracked value. *)
Definition fastGetParentPathIncludingDataObjects (v : JsValue) (h : Heap) : option ParentPath :=
  match v with
  | VObject _ l => objectParents h !! l
  | _ => None
  end.

(** [type Reconciler = (value, sn, modelPool, parent) => any | undefined].
    A reconciler may reshape the heap and may throw. *)
Definition Reconciler : Type :=
  JsValue -> JsValue -> ModelPool -> JsValue -> Heap -> Outcome JsValue * Heap.

Record Registration := { priority : Z; reconciler : Reconciler }.

(** Module state: the [reconcilers] array and the heap, plus a record of
    which array slots had their reconciler invoked. *)
Record State := {
  reconcilers : list Registration;
  heap : Heap;
  invoked : list nat
}.

(** [reconcilers.sort((a, b) => a.priority - b.priority)]; the sort is
    stable. *)
Fixpoint insertByPriority (r : Registration) (rs : list Registration) : list Registration :=
  match rs with
  | [] => [r]
  | r' :: rs' =>
      if Z.ltb (priority r) (priority r') then r :: r' :: rs'
      else r' :: insertByPriority r rs'
  end.

Definition sortByPriority (rs : list Registration) : list Registration :=
  foldl (fun acc r => insertByPriority r acc) [] rs.

Definition registerReconciler (p : Z) (r : Reconciler) (rs : list Registration)
  : list Registration :=
  sortByPriority (rs ++ [{| priority := p; reconciler := r |}]).

Section WithCollaborators.

(** [getSnapshot] ([./getSnapshot]) and [registerDefaultReconcilers]
    ([./registerDefaultReconcilers]) are imported from sibling modules,
    [`${sn}`] depends on the object's own string conversion, and [set] is
    the assignment of the reactive substrate, which the tweaker
    intercepts; the four are parameters of the development.
    [getSnapshot] reads the snapshot that the node currently has. *)
Variable getSnapshot : JsValue -> Heap -> Outcome JsValue.
Variable registerDefaultReconcilers : list Registration -> list Registration.
Variable templateString : JsValue -> string.
Variable set : Loc -> PathElement -> JsValue -> Heap -> Heap.

(** [modelTypeKey] and [modelIdKey] ([../model/metadata]): the two
    reserved keys under which a model carries its type and its id. *)
Variable modelTypeKey modelIdKey : PathElement.

(** Modelled from the spec: what is known of [set(obj, key, value)]: once
    it returns, [obj[key]] reads [value]. *)
Definition SetContract : Prop :=
  forall obj key value h c, getProperty (set obj key value h) (VObject c obj) key = value.

(** [if (newValue === oldValue) return; if (isModel(newValue) && pool.find…)] *)
Definition detachIfNeeded (newValue oldValue : JsValue) (modelPool : ModelPool) (h : Heap)
  : Heap :=
  if strictEquals newValue oldValue then h
  else if isModel newValue
            && truthy (findModelByTypeAndId modelPool
                         (getProperty h newValue modelTypeKey)
                         (getProperty h newValue modelIdKey))
  then
    match fastGetParentPathIncludingDataObjects newValue h with
    | Some parentPath => set (parent parentPath) (path parentPath) VNull h
    | None => h
    end
  else h.

(** The [for] loop over the registered reconcilers, starting at slot
    [i]: the first result other than [undefined] wins, an exception
    leaves the loop. [None] means that the loop ran to its end. *)
Fixpoint tryReconcilers (rs : list Registration) (i : nat)
    (value sn : JsValue) (modelPool : ModelPool) (parentObj : JsValue)
    (h : Heap) (log : list nat) : option (Outcome JsValue) * Heap * list nat :=
  match rs with
  | [] => (None, h, log)
  | r :: rs' =>
      match reconciler r value sn modelPool parentObj h with
      | (Thrown e, h') => (Some (Thrown e), h', log ++ [i])
      | (Returned ret, h') =>
          if negb (strictEquals ret VUndefined)
          then (Some (Returned ret), h', log ++ [i])
          else tryReconcilers rs' (S i) value sn modelPool parentObj h' (log ++ [i])
      end
  end.

Definition reconcileSnapshot (value sn : JsValue) (modelPool : ModelPool)
    (parentObj : JsValue) (st : State) : Outcome JsValue * State :=
  if isPrimitive sn then (Returned sn, st)
  else
    match getSnapshot value (heap st) with
    | Thrown e => (Thrown e, st)
    | Returned current =>
        if strictEquals current sn then (Returned value, st)
        else
          let rs := registerDefaultReconcilers (reconcilers st) in
          match tryReconcilers rs 0 value sn modelPool parentObj (heap st) (invoked st) with
          | (Some out, h', log') =>
              (out, {| reconcilers := rs; heap := h'; invoked := log' |})
          | (None, h', log') =>
              let st' := {| reconcilers := rs; heap := h'; invoked := log' |} in
              if isMap sn then
                (Thrown (Failure "a snapshot must not contain maps"), st')
              else if isSet sn then
                (Thrown (Failure "a snapshot must not contain sets"), st')
              else
                (Thrown (Failure (String.append "unsupported snapshot - " (templateString sn))), st')
          end
    end.

(** Modelled from the spec: what is known of [getSnapshot]. "Primitives
    pass through", while a node yields a rebuilt plain container (model
    snapshots "always carry their type identifier and id fields"), so a
    primitive snapshot can only be the snapshot of that very primitive. *)
Definition SnapshotContract : Prop :=
  forall v h sn, getSnapshot v h = Returned sn -> isPrimitive sn = true -> sn = v.

(** A reconciler that does not claim the pair: it returns [undefined]
    whatever the heap it is run in. *)
Definition declines (r : Registration) (value sn : JsValue) (modelPool : ModelPool)
    (parentObj : JsValue) : Prop :=
  forall h, exists h', reconciler r value sn modelPool parentObj h = (Returned VUndefined, h').

End WithCollaborators.

End Reconcile.

(** ** TypeChecker.ts *)

Module TypeCheck.

(** [new TypeCheckError(path, expectedTypeName, actualValue)] *)
Record TypeCheckError := {
  path : Path;
  expectedTypeName : string;
  actualValue : JsValue
}.

(** [type CheckResult = TypeCheckError | null]; [None] is [null]. *)
Definition CheckResult : Type := option TypeCheckError.

Definition emptyPath : Path := [].

Inductive TypeCheckerBaseType := Object | Array | Primitive | Any.

Definition getTypeCheckerBaseTypeFromValue (value : JsValue) : TypeCheckerBaseType :=
  if isArray value then Array
  else if isObject value then Object
  else if isPrimitive value then Primitive
  else Any.

(** Every [TypeChecker] instance has an identity of its own. *)
Definition CheckerId := positive.

(** Modelled from the spec: the tracked tree as far as this file reads
    it.  [isTweakedObject] ([../tweaker/core]) tells whether an object is
    a tracked node and [fastGetParentIncludingDataObjects]
    ([../parent/path]) yields its parent, [undefined] at a root; neither
    is written to here. *)
Record Tree := {
  tweakedObjects : gset Loc;
  objectParents : gmap Loc Loc
}.

(** The mutable state of this file: the two private caches of every
    checker and the two module-level listener registries.  A
    [Set<TypeChecker>] is kept in insertion order, without duplicates. *)
Record Caches := {
  (** [this.checkResultCache]; no entry while it is still [undefined] *)
  checkResultCache : gmap CheckerId (gmap Loc CheckResult);
  (** [this._toSnapshotProcessorCache] *)
  toSnapshotProcessorCache : gmap CheckerId (gmap Loc JsValue);
  typeCheckersWithCachedResultsOfObject : gmap Loc (list CheckerId);
  typeCheckersWithCachedSnapshotProcessorResultsOfObject : gmap Loc (list CheckerId)
}.

(** The functions handed to the constructor.  They read the tree and,
    through the checkers of nested types, may fill or empty caches. *)
Definition CheckFunction : Type :=
  JsValue -> Path -> Tree -> Caches -> CheckResult * Caches.
Definition Processor : Type :=
  JsValue -> Tree -> Caches -> JsValue * Caches.

(** The members of the class that take part in checking and snapshot
    processing ([getTypeName], [typeInfoGen] and [snapshotType] do not). *)
Record TypeChecker := {
  identity : CheckerId;
  baseType : TypeCheckerBaseType;
  _check : option CheckFunction;
  _fromSnapshotProcessor : Processor;
  _toSnapshotProcessor : Processor
}.

(** [this.unchecked = !_check], assigned once by the constructor. *)
Definition unchecked (tc : TypeChecker) : bool :=
  match _check tc with
  | None => true
  | Some _ => false
  end.

(** One entry per invocation of a constructor-supplied function. *)
Inductive Call :=
| CallCheck (c : CheckerId) (value : JsValue) (p : Path)
| CallFromSnapshotProcessor (c : CheckerId) (sn : JsValue)
| CallToSnapshotProcessor (c : CheckerId) (sn : JsValue).

Record State := {
  tree : Tree;
  caches : Caches;
  calls : list Call
}.

(** [set.add(x)] *)
Definition setAdd (x : CheckerId) (s : list CheckerId) : list CheckerId :=
  if decide (x ∈ s) then s else s ++ [x].

(** [isTweakedObject(value, true)], with the location of the node. *)
Definition isTweakedObject (value : JsValue) (t : Tree) : option Loc :=
  match value with
  | VObject _ l => if decide (l ∈ tweakedObjects t) then Some l else None
  | _ => None
  end.

Definition fastGetParentIncludingDataObjects (obj : Loc) (t : Tree) : option Loc :=
  objectParents t !! obj.

(** *** Methods on the caches *)

Definition createCacheIfNeeded (tc : CheckerId) (c : Caches) : gmap Loc CheckResult * Caches :=
  match checkResultCache c !! tc with
  | Some m => (m, c)
  | None =>
      (∅, {| checkResultCache := <[tc := ∅]> (checkResultCache c);
             toSnapshotProcessorCache := toSnapshotProcessorCache c;
             typeCheckersWithCachedResultsOfObject := typeCheckersWithCachedResultsOfObject c;
             typeCheckersWithCachedSnapshotProcessorResultsOfObject :=
               typeCheckersWithCachedSnapshotProcessorResultsOfObject c |})
  end.

Definition setCachedResult (tc : CheckerId) (obj : Loc) (newCacheValue : CheckResult)
    (c : Caches) : Caches :=
  let '(m, c1) := createCacheIfNeeded tc c in
  (* getOrCreate(typeCheckersWithCachedResultsOfObject, obj, () => new Set()) *)
  let typeCheckerSet := default [] (typeCheckersWithCachedResultsOfObject c1 !! obj) in
  {| checkResultCache := <[tc := <[obj := newCacheValue]> m]> (checkResultCache c1);
     toSnapshotProcessorCache := toSnapshotProcessorCache c1;
     typeCheckersWithCachedResultsOfObject :=
       <[obj := setAdd tc typeCheckerSet]> (typeCheckersWithCachedResultsOfObject c1);
     typeCheckersWithCachedSnapshotProcessorResultsOfObject :=
       typeCheckersWithCachedSnapshotProcessorResultsOfObject c1 |}.

(** [this.checkResultCache?.delete(obj)] *)
Definition invalidateCachedResult (tc : CheckerId) (obj : Loc) (c : Caches) : Caches :=
  match checkResultCache c !! tc with
  | Some m =>
      {| checkResultCache := <[tc := delete obj m]> (checkResultCache c);
         toSnapshotProcessorCache := toSnapshotProcessorCache c;
         typeCheckersWithCachedResultsOfObject := typeCheckersWithCachedResultsOfObject c;
         typeCheckersWithCachedSnapshotProcessorResultsOfObject :=
           typeCheckersWithCachedSnapshotProcessorResultsOfObject c |}
  | None => c
  end.

(** [this.checkResultCache?.get(obj)]; [None] is [undefined]. *)
Definition getCachedResult (tc : CheckerId) (obj : Loc) (c : Caches) : option CheckResult :=
  match checkResultCache c !! tc with
  | Some m => m !! obj
  | None => None
  end.

(** [this._toSnapshotProcessorCache] of a checker. *)
Definition snapshotProcessorCacheOf (tc : CheckerId) (c : Caches) : gmap Loc JsValue :=
  default ∅ (toSnapshotProcessorCache c !! tc).

(** [this._toSnapshotProcessorCache.delete(obj)] *)
Definition invalidateSnapshotProcessorCachedResult (tc : CheckerId) (obj : Loc) (c : Caches)
  : Caches :=
  {| checkResultCache := checkResultCache c;
     toSnapshotProcessorCache :=
       <[tc := delete obj (snapshotProcessorCacheOf tc c)]> (toSnapshotProcessorCache c);
     typeCheckersWithCachedResultsOfObject := typeCheckersWithCachedResultsOfObject c;
     typeCheckersWithCachedSnapshotProcessorResultsOfObject :=
       typeCheckersWithCachedSnapshotProcessorResultsOfObject c |}.

(** *** Invalidation *)

(** The body of the [while] loop, up to the move to the parent. *)
Definition invalidateAt (current : Loc) (c : Caches) : Caches :=
  match typeCheckersWithCachedResultsOfObject c !! current with
  | Some set =>
      let c1 := foldl (fun acc typeChecker => invalidateCachedResult typeChecker current acc)
                      c set in
      {| checkResultCache := checkResultCache c1;
         toSnapshotProcessorCache := toSnapshotProcessorCache c1;
         typeCheckersWithCachedResultsOfObject :=
           delete current (typeCheckersWithCachedResultsOfObject c1);
         typeCheckersWithCachedSnapshotProcessorResultsOfObject :=
           typeCheckersWithCachedSnapshotProcessorResultsOfObject c1 |}
  | None => c
  end.

(** [while (current) { ...; current = parent(current) }]; the loop follows
    parent links, so it is run on fuel: [None] when the fuel runs out
    before a root is reached. *)
Fixpoint invalidateFrom (fuel : nat) (t : Tree) (current : option Loc) (c : Caches)
  : option Caches :=
  match current with
  | None => Some c
  | Some cur =>
      match fuel with
      | O => None
      | S fuel' =>
          invalidateFrom fuel' t (fastGetParentIncludingDataObjects cur t) (invalidateAt cur c)
      end
  end.

(** In a tree every round but the last moves along a parent link that no
    earlier round has used, so one round per link and one more is all the
    loop can need; the result is [None] only when the parent links run in
    a circle. *)
Definition invalidateCachedTypeCheckerResult (obj : Loc) (s : State) : option State :=
  match invalidateFrom (S (size (objectParents (tree s)))) (tree s) (Some obj) (caches s) with
  | Some c' => Some {| tree := tree s; caches := c'; calls := calls s |}
  | None => None
  end.

Definition invalidateCachedToSnapshotProcessorResult (obj : Loc) (s : State) : State :=
  let c := caches s in
  match typeCheckersWithCachedSnapshotProcessorResultsOfObject c !! obj with
  | Some set =>
      let c1 := foldl (fun acc typeChecker =>
                         invalidateSnapshotProcessorCachedResult typeChecker obj acc) c set in
      {| tree := tree s;
         caches :=
           {| checkResultCache := checkResultCache c1;
              toSnapshotProcessorCache := toSnapshotProcessorCache c1;
              typeCheckersWithCachedResultsOfObject :=
                typeCheckersWithCachedResultsOfObject c1;
              typeCheckersWithCachedSnapshotProcessorResultsOfObject :=
                delete obj (typeCheckersWithCachedSnapshotProcessorResultsOfObject c1) |};
         calls := calls s |}
  | None => s
  end.

(** *** check *)

(** [this._check!(value, path)] *)
Definition runCheck (tc : TypeChecker) (f : CheckFunction) (value : JsValue) (p : Path)
    (s : State) : CheckResult * State :=
  let '(r, c') := f value p (tree s) (caches s) in
  (r, {| tree := tree s; caches := c';
         calls := calls s ++ [CallCheck (identity tc) value p] |}).

(** [new TypeCheckError([...path, ...cachedResult.path], ...)] for an
    error, [null] for [null]. *)
Definition rebase (p : Path) (cachedResult : CheckResult) : CheckResult :=
  match cachedResult with
  | Some err =>
      Some {| path := p ++ path err;
              expectedTypeName := expectedTypeName err;
              actualValue := actualValue err |}
  | None => None
  end.

Definition check (tc : TypeChecker) (value : JsValue) (p : Path) (s : State)
  : CheckResult * State :=
  if unchecked tc then (None, s)
  else
    match _check tc with
    | None => (None, s) (* not reached: [unchecked] is [!_check] *)
    | Some f =>
        match isTweakedObject value (tree s) with
        | None => runCheck tc f value p s
        | Some obj =>
            let '(cachedResult, s1) :=
              match getCachedResult (identity tc) obj (caches s) with
              | Some r => (r, s)
              | None =>
                  let '(r, s') := runCheck tc f value emptyPath s in
                  (r, {| tree := tree s';
                         caches := setCachedResult (identity tc) obj r (caches s');
                         calls := calls s' |})
              end in
            (rebase p cachedResult, s1)
        end
    end.

(** *** Snapshot processors *)

Definition runProcessor (f : Processor) (entry : Call) (sn : JsValue) (s : State)
  : JsValue * State :=
  let '(r, c') := f sn (tree s) (caches s) in
  (r, {| tree := tree s; caches := c'; calls := calls s ++ [entry] |}).

Definition fromSnapshotProcessor (tc : TypeChecker) (sn : JsValue) (s : State)
  : JsValue * State :=
  runProcessor (_fromSnapshotProcessor tc) (CallFromSnapshotProcessor (identity tc) sn) sn s.

(** The tail of [toSnapshotProcessor], after the processor has run on a
    cacheable input: store the value and register as a listener. *)
Definition rememberSnapshotProcessorResult (tc : CheckerId) (obj : Loc) (val : JsValue)
    (c : Caches) : Caches :=
  let typeCheckerSet :=
    default [] (typeCheckersWithCachedSnapshotProcessorResultsOfObject c !! obj) in
  {| checkResultCache := checkResultCache c;
     toSnapshotProcessorCache :=
       <[tc := <[obj := val]> (snapshotProcessorCacheOf tc c)]> (toSnapshotProcessorCache c);
     typeCheckersWithCachedResultsOfObject := typeCheckersWithCachedResultsOfObject c;
     typeCheckersWithCachedSnapshotProcessorResultsOfObject :=
       <[obj := setAdd tc typeCheckerSet]>
         (typeCheckersWithCachedSnapshotProcessorResultsOfObject c) |}.

Definition toSnapshotProcessor (tc : TypeChecker) (sn : JsValue) (s : State)
  : JsValue * State :=
  let run := runProcessor (_toSnapshotProcessor tc)
               (CallToSnapshotProcessor (identity tc) sn) sn in
  if negb (bool_decide (typeof sn = "object")) || strictEquals sn VNull then run s
  else
    match sn with
    | VObject _ obj =>
        match snapshotProcessorCacheOf (identity tc) (caches s) !! obj with
        | Some cached => (cached, s)
        | None =>
            let '(val, s1) := run s in
            (val, {| tree := tree s1;
                     caches := rememberSnapshotProcessorResult (identity tc) obj val (caches s1);
                     calls := calls s1 |})
        end
    | _ => run s (* not reached: an object that is not [null] is a reference *)
    end.

(** *** Vocabulary for the statements *)

(** [chain] lists [obj] and its ancestors, nearest first, up to the root. *)
Inductive ancestorChain (t : Tree) : Loc -> list Loc -> Prop :=
| chain_root obj :
    fastGetParentIncludingDataObjects obj t = None ->
    ancestorChain t obj [obj]
| chain_step obj p rest :
    fastGetParentIncludingDataObjects obj t = Some p ->
    ancestorChain t p rest ->
    ancestorChain t obj (obj :: rest).

(** The checkers registered as listeners of changes to [obj]. *)
Definition listenersOf (obj : Loc) (c : Caches) : list CheckerId :=
  default [] (typeCheckersWithCachedResultsOfObject c !! obj).

Definition snapshotProcessorListenersOf (obj : Loc) (c : Caches) : list CheckerId :=
  default [] (typeCheckersWithCachedSnapshotProcessorResultsOfObject c !! obj).

(** Whoever holds a cached check result for an object listens to it. *)
Definition resultsHaveListeners (c : Caches) : Prop :=
  forall tc obj r, getCachedResult tc obj c = Some r -> tc ∈ listenersOf obj c.

(** A validation function that leaves the result cached for one
    (checker, node) pair as it found it. *)
Definition keepsCachedResult (f : CheckFunction) (tc : CheckerId) (obj : Loc) : Prop :=
  forall value p t c, getCachedResult tc obj (f value p t c).2 = getCachedResult tc obj c.

(** One [check] call after the other. *)
Definition checkAll (requests : list (TypeChecker * JsValue * Path)) (s : State) : State :=
  foldl (fun acc '(tc, value, p) => (check tc value p acc).2) s requests.

(** A processor that leaves the value cached for one (checker, object)
    pair as it found it, and one that removes no listener of an object. *)
Definition keepsSnapshotProcessorResult (f : Processor) (tc : CheckerId) (obj : Loc) : Prop :=
  forall sn t c,
    snapshotProcessorCacheOf tc (f sn t c).2 !! obj = snapshotProcessorCacheOf tc c !! obj.

Definition keepsSnapshotProcessorListeners (f : Processor) (obj : Loc) : Prop :=
  forall sn t c tc,
    tc ∈ snapshotProcessorListenersOf obj c ->
    tc ∈ snapshotProcessorListenersOf obj (f sn t c).2.

(** One [toSnapshotProcessor] call after the other. *)
Definition toSnapshotProcessorAll (requests : list (TypeChecker * JsValue)) (s : State)
  : State :=
  foldl (fun acc '(tc, sn) => (toSnapshotProcessor tc sn acc).2) s requests.

End TypeCheck.

(** ** prop.ts *)

Module ModelProps.

(** [setter: boolean | "assign"] *)
Inductive SetterMode := SetterBoolean (b : bool) | SetterAssign.

(** Property objects live in a store of their own, addressed by
    allocation order. *)
Abbreviation Addr := nat.

(** The user's [untransform] as far as it acts on the state of this
    file.  It is handed [params.cacheTransformedValue], which it may call
    any number of times; it may run the [untransform] method of a full
    transform, of its own property or of another one, and go on with the
    value that comes back; in the end it returns the original value.

    [ModelPropTransform]: the user's [transform] maps the original value
    and the cached transformed value (or [undefined]) to the transformed
    value; the user's [untransform] is such a program for every
    transformed value.  [FullTransform] is what [toFullTransform]
    returns: closures over the transform object and over a private
    [cache]. *)
Inductive UntransformProgram :=
| Return (originalValue : JsValue)
| CacheTransformedValue (next : UntransformProgram)
| Untransform (inner : FullTransform) (transformedValue : JsValue) (model : Loc)
    (propName : PathElement) (next : JsValue -> UntransformProgram)
with ModelPropTransform :=
| Build_ModelPropTransform (userTransform : JsValue -> JsValue -> JsValue)
    (userUntransform : JsValue -> UntransformProgram)
with FullTransform :=
| Build_FullTransform (transformObject : ModelPropTransform) (cache : Addr).

Definition userTransform (t : ModelPropTransform) : JsValue -> JsValue -> JsValue :=
  match t with
  | Build_ModelPropTransform transform _ => transform
  end.

Definition userUntransform (t : ModelPropTransform) : JsValue -> UntransformProgram :=
  match t with
  | Build_ModelPropTransform _ untransform => untransform
  end.

Definition transformObject (full : FullTransform) : ModelPropTransform :=
  match full with
  | Build_FullTransform t _ => t
  end.

Definition cache (full : FullTransform) : Addr :=
  match full with
  | Build_FullTransform _ c => c
  end.

Section WithWorld.

(** Whatever a default-value generator may read and write. *)
Context {World : Type}.

Definition DefaultFn : Type := World -> JsValue * World.

(** The run-time fields of [_internal] (the [$...] fields only carry
    types).  [None] in [defaultFn] and [defaultValue] is the
    [noDefaultValue] symbol, elsewhere it is [undefined]. *)
Record Internal := {
  defaultFn : option DefaultFn;
  defaultValue : option JsValue;
  typeChecker : option TypeCheck.TypeChecker;
  setter : SetterMode;
  isId : bool;
  transform : option FullTransform;
  fromSnapshotProcessor : option (JsValue -> JsValue);
  toSnapshotProcessor : option (JsValue -> JsValue)
}.

Inductive Cell :=
| PropObject (_internal : Addr)
| InternalRecord (r : Internal)
| TransformCache (m : gmap Loc (gmap PathElement (JsValue * JsValue))).

Abbreviation PropHeap := (list Cell).

Definition alloc (c : Cell) (h : PropHeap) : Addr * PropHeap :=
  (length h, h ++ [c]).

(** [this._internal] *)
Definition internalOf (this : Addr) (h : PropHeap) : option Internal :=
  match h !! this with
  | Some (PropObject i) =>
      match h !! i with
      | Some (InternalRecord r) => Some r
      | _ => None
      end
  | _ => None
  end.

(** [{ ...this, _internal: r }]: a new [_internal] record and a new
    property object that points to it. *)
Definition spreadWithInternal (r : Internal) (h : PropHeap) : Addr * PropHeap :=
  let '(i, h1) := alloc (InternalRecord r) h in
  alloc (PropObject i) h1.

(** The argument of [prop]: a generator function or a plain value. *)
Inductive PropArgument :=
| ArgFunction (f : DefaultFn)
| ArgValue (v : JsValue).

(** [prop(def?)]; [None] is the call without argument. *)
Definition prop (def : option PropArgument) (h : PropHeap) : Addr * PropHeap :=
  let hasDefaultValue := match def with Some _ => true | None => false end in
  let isDefFn := match def with Some (ArgFunction _) => true | _ => false end in
  spreadWithInternal
    {| defaultFn :=
         if hasDefaultValue && isDefFn
         then match def with Some (ArgFunction f) => Some f | _ => None end
         else None;
       defaultValue :=
         if hasDefaultValue && negb isDefFn
         then match def with Some (ArgValue v) => Some v | _ => None end
         else None;
       typeChecker := None;
       setter := SetterBoolean false;
       isId := false;
       transform := None;
       fromSnapshotProcessor := None;
       toSnapshotProcessor := None |}
    h.

(** [idProp] is not built by [prop]: it is cast to the interface
    ([as any as ModelIdProp]) with [setter] and [isId] alone, so it is
    not one of the records above. *)

(** [withSetter(mode?)]: [setter: mode ?? true] *)
Definition withSetter (this : Addr) (mode : option SetterMode) (h : PropHeap)
  : option (Addr * PropHeap) :=
  match internalOf this h with
  | None => None
  | Some r =>
      Some (spreadWithInternal
              {| defaultFn := defaultFn r;
                 defaultValue := defaultValue r;
                 typeChecker := typeChecker r;
                 setter := default (SetterBoolean true) mode;
                 isId := isId r;
                 transform := transform r;
                 fromSnapshotProcessor := fromSnapshotProcessor r;
                 toSnapshotProcessor := toSnapshotProcessor r |}
              h)
  end.

(** [toFullTransform(transformObject)]: allocates the private cache. *)
Definition toFullTransform (t : ModelPropTransform) (h : PropHeap)
  : FullTransform * PropHeap :=
  let '(c, h1) := alloc (TransformCache ∅) h in
  (Build_FullTransform t c, h1).

Definition withTransform (this : Addr) (t : ModelPropTransform) (h : PropHeap)
  : option (Addr * PropHeap) :=
  match internalOf this h with
  | None => None
  | Some r =>
      let '(full, h1) := toFullTransform t h in
      Some (spreadWithInternal
              {| defaultFn := defaultFn r;
                 defaultValue := defaultValue r;
                 typeChecker := typeChecker r;
                 setter := setter r;
                 isId := isId r;
                 transform := Some full;
                 fromSnapshotProcessor := fromSnapshotProcessor r;
                 toSnapshotProcessor := toSnapshotProcessor r |}
              h1)
  end.

(** The two [if / else if / else] cascades of [withSnapshotProcessor]. *)
Definition newFromSnapshot (old fromSnapshot : option (JsValue -> JsValue))
  : option (JsValue -> JsValue) :=
  match old, fromSnapshot with
  | Some oldFn, Some newFn => Some (fun sn => oldFn (newFn sn))
  | _, Some newFn => Some newFn
  | _, None => old
  end.

Definition newToSnapshot (old toSnapshot : option (JsValue -> JsValue))
  : option (JsValue -> JsValue) :=
  match old, toSnapshot with
  | Some oldFn, Some newFn => Some (fun sn => newFn (oldFn sn))
  | _, Some newFn => Some newFn
  | _, None => old
  end.

(** [withSnapshotProcessor({ fromSnapshot, toSnapshot })] *)
Definition withSnapshotProcessor (this : Addr)
    (fromSnapshot toSnapshot : option (JsValue -> JsValue)) (h : PropHeap)
  : option (Addr * PropHeap) :=
  match internalOf this h with
  | None => None
  | Some r =>
      Some (spreadWithInternal
              {| defaultFn := defaultFn r;
                 defaultValue := defaultValue r;
                 typeChecker := typeChecker r;
                 setter := setter r;
                 isId := isId r;
                 transform := transform r;
                 fromSnapshotProcessor :=
                   newFromSnapshot (fromSnapshotProcessor r) fromSnapshot;
                 toSnapshotProcessor :=
                   newToSnapshot (toSnapshotProcessor r) toSnapshot |}
              h)
  end.

(** [x == null] *)
Definition isNullish (v : JsValue) : bool :=
  match v with
  | VUndefined | VNull => true
  | _ => false
  end.

Definition transformCacheOf (full : FullTransform) (h : PropHeap)
  : gmap Loc (gmap PathElement (JsValue * JsValue)) :=
  match h !! cache full with
  | Some (TransformCache m) => m
  | _ => ∅
  end.

(** The [transform] method of a full transform: [null] and [undefined]
    pass through, and the transformed value cached for [propName] is
    offered to the user's transform while the original is unchanged. *)
Definition fullTransform (full : FullTransform) (originalValue : JsValue)
    (model : Loc) (propName : PathElement) (h : PropHeap) : JsValue * PropHeap :=
  let m := transformCacheOf full h in
  let modelCache := default ∅ (m !! model) in
  let cachedTransformedValue :=
    match modelCache !! propName with
    | Some (original, transformed) =>
        if strictEquals original originalValue then transformed else VUndefined
    | None => VUndefined
    end in
  let transformedValue :=
    if isNullish originalValue then originalValue
    else userTransform (transformObject full) originalValue cachedTransformedValue in
  (transformedValue,
   <[cache full :=
       TransformCache
         (<[model := <[propName := (originalValue, transformedValue)]> modelCache]> m)]> h).

(** The state that the [untransform] method works on: the module-level
    variable [cacheTransformResult], one for all full transforms, and the
    store with their caches. *)
Record ModuleState := {
  cacheTransformResult : bool;
  store : PropHeap
}.

(** [cacheTransformedValueFn]: [cacheTransformResult = true] *)
Definition cacheTransformedValueFn (st : ModuleState) : ModuleState :=
  {| cacheTransformResult := true; store := store st |}.

(** [getOrCreate(cache, model, () => new Map())] *)
Definition getOrCreateModelCache (full : FullTransform) (model : Loc) (h : PropHeap)
  : PropHeap :=
  let m := transformCacheOf full h in
  match m !! model with
  | Some _ => h
  | None => <[cache full := TransformCache (<[model := ∅]> m)]> h
  end.

(** The [untransform] method around the run of the inner [untransform]
    closure: the map of the model is looked up, the shared variable is set
    to [false], the closure runs, and the variable as it is then decides
    between [modelCache.set] and [modelCache.delete]. *)
Definition untransformMethod (untransform : ModuleState -> JsValue * ModuleState)
    (full : FullTransform) (transformedValue : JsValue) (model : Loc)
    (propName : PathElement) (st : ModuleState) : JsValue * ModuleState :=
  let h0 := getOrCreateModelCache full model (store st) in
  let '(originalValue, st1) := untransform {| cacheTransformResult := false; store := h0 |} in
  let m := transformCacheOf full (store st1) in
  let modelCache := default ∅ (m !! model) in
  let modelCache' :=
    if cacheTransformResult st1
    then <[propName := (originalValue, transformedValue)]> modelCache
    else delete propName modelCache in
  (originalValue,
   {| cacheTransformResult := cacheTransformResult st1;
      store := <[cache full := TransformCache (<[model := modelCache']> m)]> (store st1) |}).

(** The run of a user's [untransform].  A call of the [untransform]
    method of [inner] goes through the closure of [inner], which returns
    [null] and [undefined] as they are and hands every other value to
    the user's [untransform] of [inner]. *)
Fixpoint runUntransformProgram (program : UntransformProgram) (st : ModuleState)
  : JsValue * ModuleState :=
  match program with
  | Return originalValue => (originalValue, st)
  | CacheTransformedValue next => runUntransformProgram next (cacheTransformedValueFn st)
  | Untransform inner transformedValue model propName next =>
      let untransform :=
        if isNullish transformedValue then (fun st0 => (transformedValue, st0))
        else runUntransformProgram (userUntransform (transformObject inner) transformedValue) in
      let '(originalValue, st1) :=
        untransformMethod untransform inner transformedValue model propName st in
      runUntransformProgram (next originalValue) st1
  end.

(** The [untransform] method of a full transform. *)
Definition fullUntransform (full : FullTransform) (transformedValue : JsValue)
    (model : Loc) (propName : PathElement) (st : ModuleState) : JsValue * ModuleState :=
  let untransform :=
    if isNullish transformedValue then (fun st0 => (transformedValue, st0))
    else runUntransformProgram (userUntransform (transformObject full) transformedValue) in
  untransformMethod untransform full transformedValue model propName st.

(** What [getModelPropDefaultValue] returns: a value or the
    [noDefaultValue] symbol. *)
Inductive DefaultValueResult :=
| noDefaultValue
| DefaultValue (v : JsValue).

Definition getModelPropDefaultValue (propData : Internal) (w : World)
  : DefaultValueResult * World :=
  match defaultFn propData with
  | Some f => let '(v, w') := f w in (DefaultValue v, w')
  | None =>
      match defaultValue propData with
      | Some v => (DefaultValue v, w)
      | None => (noDefaultValue, w)
      end
  end.

End WithWorld.

Arguments Internal : clear implicits.
Arguments Cell : clear implicits.
Arguments ModuleState : clear implicits.
Arguments PropArgument : clear implicits.
Arguments DefaultFn : clear implicits.

End ModelProps.

(** ** Concrete collaborators and inputs *)

Module Examples.

Import Reconcile.

Definition emptyHeap : Heap := {| fields := ∅; objectParents := ∅ |}.

(** A [getSnapshot]: primitives pass through, the model at location 1
    serialises (through its snapshot processor) to the object at location
    2, the tracked plain object at 3 has its snapshot at 4, and anything
    else is not a tree node. *)
Definition getSnapshotEx (v : JsValue) (h : Heap) : Outcome JsValue :=
  match v with
  | VObject CModel 1%positive => Returned (VObject COther 2%positive)
  | VObject CPlainObject 3%positive => Returned (VObject CPlainObject 4%positive)
  | VObject _ _ => Thrown (Failure "value must be a tree node")
  | _ => Returned v
  end.

(** A reconciler that claims arrays and plain objects, as the default
    ones do, and nothing else. *)
Definition containerReconciler : Reconciler :=
  fun value sn modelPool parentObj h =>
    match sn with
    | VObject CArray _ | VObject CPlainObject _ => (Returned sn, h)
    | _ => (Returned VUndefined, h)
    end.

Definition processedModel : JsValue := VObject CModel 1%positive.
Definition processedSnapshot : JsValue := VObject COther 2%positive.
Definition trackedObject : JsValue := VObject CPlainObject 3%positive.
Definition trackedSnapshot : JsValue := VObject CPlainObject 4%positive.
Definition someMap : JsValue := VObject CMap 5%positive.

Definition registerDefaultsEx (rs : list Registration) : list Registration := rs.

Definition templateStringEx (v : JsValue) : string := "[object Object]".

(** A [set] that stores the value and does nothing else. *)
Definition storeField (obj : Loc) (key : PathElement) (value : JsValue) (h : Heap) : Heap :=
  {| fields := <[obj := <[key := value]> (default ∅ (fields h !! obj))]> (fields h);
     objectParents := objectParents h |}.

Definition emptyPool : ModelPool := {| findModelByTypeAndId := fun _ _ => VUndefined |}.

Definition stateEx : State :=
  {| reconcilers := [{| priority := 0%Z; reconciler := containerReconciler |}];
     heap := emptyHeap;
     invoked := [] |}.

Definition typeKeyEx : PathElement := inl "$modelType".
Definition idKeyEx : PathElement := inl "$modelId".

(** A heap in which the model at location 7 sits under key ["a"] of the
    object at location 8, and a pool that knows that model. *)
Definition modelEx : JsValue := VObject CModel 7%positive.
Definition holder : JsValue := VObject CPlainObject 8%positive.

Definition attachedHeap : Heap :=
  {| fields :=
       {[ 7%positive := {[ typeKeyEx := VString "Todo"; idKeyEx := VString "t1" ]};
          8%positive := {[ (inl "a" : PathElement) := modelEx ]} ]};
     objectParents := {[ 7%positive := {| parent := 8%positive; path := inl "a" |} ]} |}.

Definition poolEx : ModelPool :=
  {| findModelByTypeAndId := fun ty id =>
       if strictEquals ty (VString "Todo") && strictEquals id (VString "t1")
       then modelEx else VUndefined |}.

End Examples.

Module CheckerExamples.

Import TypeCheck.

(** A todo list at location 12 (the root), holding an array at 11, which
    holds a todo at 10. *)
Definition todo : JsValue := VObject CPlainObject 10%positive.

Definition treeEx : Tree :=
  {| tweakedObjects := {[ 10%positive; 11%positive; 12%positive ]};
     objectParents := {[ 10%positive := 11%positive; 11%positive := 12%positive ]} |}.

Definition emptyCaches : Caches :=
  {| checkResultCache := ∅;
     toSnapshotProcessorCache := ∅;
     typeCheckersWithCachedResultsOfObject := ∅;
     typeCheckersWithCachedSnapshotProcessorResultsOfObject := ∅ |}.

Definition titleError : TypeCheckError :=
  {| path := [inl "title"]; expectedTypeName := "string"; actualValue := VNumber 5 |}.

(** A validation that always reports the [title] field, below the path
    it is given. *)
Definition rejectTitle : CheckFunction :=
  fun value p t c =>
    (Some {| path := p ++ [inl "title"];
             expectedTypeName := "string";
             actualValue := VNumber 5 |}, c).

Definition todoChecker : TypeChecker :=
  {| identity := 1%positive;
     baseType := Object;
     _check := Some rejectTitle;
     _fromSnapshotProcessor := fun sn t c => (sn, c);
     _toSnapshotProcessor := fun sn t c => (VString "processed", c) |}.

Definition freshState : State :=
  {| tree := treeEx; caches := emptyCaches; calls := [] |}.

(** The array that holds the todo. *)
Definition todos : JsValue := VObject CArray 11%positive.

(** A second checker, with a processor of its own. *)
Definition archiveChecker : TypeChecker :=
  {| identity := 2%positive;
     baseType := Object;
     _check := Some (fun value p t c => (None, c));
     _fromSnapshotProcessor := fun sn t c => (sn, c);
     _toSnapshotProcessor := fun sn t c => (VString "archived", c) |}.

(** Two checkers hold a result for the todo, one of them also for the
    array above it. *)
Definition cachedState : State :=
  {| tree := treeEx;
     caches :=
       setCachedResult 2%positive 10%positive None
         (setCachedResult 1%positive 10%positive (Some titleError)
            (setCachedResult 1%positive 11%positive None emptyCaches));
     calls := [] |}.

End CheckerExamples.

Module PropExamples.

Import ModelProps.

(** Two snapshot processors on numbers that do not commute. *)
Definition addOne (sn : JsValue) : JsValue :=
  match sn with
  | VNumber n => VNumber (n + 1)
  | _ => sn
  end.

Definition double (sn : JsValue) : JsValue :=
  match sn with
  | VNumber n => VNumber (2 * n)
  | _ => sn
  end.

(** [prop().withSnapshotProcessor({ fromSnapshot: f, toSnapshot: f' })
           .withSnapshotProcessor({ fromSnapshot: g, toSnapshot: g' })._internal] *)
Definition twoProcessors (f f' g g' : JsValue -> JsValue) : option (Internal unit) :=
  let '(p0, h0) := prop None [] in
  match withSnapshotProcessor p0 (Some f) (Some f') h0 with
  | Some (p1, h1) =>
      match withSnapshotProcessor p1 (Some g) (Some g') h1 with
      | Some (p2, h2) => internalOf p2 h2
      | None => None
      end
  | None => None
  end.

(** A transform that wraps a number into a string and back, and asks for
    the pair to be cached on the way back. *)
Definition boxNumber : ModelPropTransform :=
  Build_ModelPropTransform
    (fun original cachedTransformed =>
       match cachedTransformed with
       | VUndefined => VString "boxed"
       | _ => cachedTransformed
       end)
    (fun transformed => CacheTransformedValue (Return (VNumber 7))).

(** A generator that hands out consecutive numbers. *)
Definition nextId : DefaultFn nat := fun w => (VNumber (Z.of_nat w), S w).

Definition noTransform : ModelPropTransform :=
  Build_ModelPropTransform (fun original _ => original) (fun transformed => Return transformed).

End PropExamples.

(** ** Vocabulary and inputs for the further properties *)

Module ReconcileOrder.

Import Reconcile.

(** The order in which the loop of [reconcileSnapshot] meets two
    registrations: the comparator of [registerReconciler] does not put the
    second before the first. *)
Definition byPriority (a b : Registration) : Prop := (priority a <= priority b)%Z.

(** A reconciler that claims every pair with the same answer. *)
Definition alwaysClaims (answer : JsValue) : Reconciler :=
  fun value sn modelPool parentObj h => (Returned answer, h).

(** A reconciler that fails on every pair. *)
Definition alwaysThrows (msg : string) : Reconciler :=
  fun value sn modelPool parentObj h => (Thrown (Failure msg), h).

(** A reconciler that settles the pair: whatever the heap, it throws or
    returns something other than [undefined], always the same [out]. *)
Definition answers (r : Registration) (value sn : JsValue) (modelPool : ModelPool)
    (parentObj : JsValue) (out : Outcome JsValue) : Prop :=
  out <> Returned VUndefined
  /\ forall h, exists h', reconciler r value sn modelPool parentObj h = (out, h').

(** A registry of two: the container reconciler, then one that claims
    everything. *)
Definition twoReconcilers : State :=
  {| reconcilers := [ {| priority := 0%Z; reconciler := Examples.containerReconciler |};
                      {| priority := 5%Z; reconciler := alwaysClaims (VString "fallback") |} ];
     heap := Examples.emptyHeap;
     invoked := [] |}.

End ReconcileOrder.

Module PropChains.

Import ModelProps.

(** What a user's [untransform] returns and what it leaves in the shared
    variable, given what the variable held when it started.  The caches
    are written and never read on the way, so neither depends on the
    store.  A nested [untransform] method sets the variable to [false]
    before its own user code runs. *)
Fixpoint untransformOutcome (program : UntransformProgram) (requested : bool)
  : JsValue * bool :=
  match program with
  | Return originalValue => (originalValue, requested)
  | CacheTransformedValue next => untransformOutcome next true
  | Untransform inner transformedValue _ _ next =>
      let inside :=
        if isNullish transformedValue then (transformedValue, false)
        else untransformOutcome (userUntransform (transformObject inner) transformedValue)
               false in
      untransformOutcome (next inside.1) inside.2
  end.

(** The calls of [untransform] methods that a user's [untransform]
    makes, directly or through the user code of those methods: the cache,
    the model and the property of each. *)
Fixpoint untransformsRun (program : UntransformProgram) : list (Addr * Loc * PathElement) :=
  match program with
  | Return _ => []
  | CacheTransformedValue next => untransformsRun next
  | Untransform inner transformedValue model propName next =>
      let innerProgram := userUntransform (transformObject inner) transformedValue in
      let inside :=
        if isNullish transformedValue then (transformedValue, [])
        else ((untransformOutcome innerProgram false).1, untransformsRun innerProgram) in
      ((cache inner, model, propName) :: inside.2) ++ untransformsRun (next inside.1)
  end.

(** An [untransform] that asks for caching first and then unwraps
    through the [untransform] method of another transform, for the
    [until] property of model 1. *)
Definition unwrapThrough (inner : FullTransform) : ModelPropTransform :=
  Build_ModelPropTransform
    (fun original _ => original)
    (fun transformed =>
       CacheTransformedValue
         (Untransform inner transformed 1%positive (inl "until")
            (fun originalValue => Return originalValue))).

Section WithWorld.

Context {World : Type}.

(** [this.withSnapshotProcessor(p1).withSnapshotProcessor(p2)...]: one
    call per processor pair, each on the result of the one before. *)
Fixpoint withSnapshotProcessors (ps : list ((JsValue -> JsValue) * (JsValue -> JsValue)))
    (this : Addr) (h : list (Cell World)) : option (Addr * list (Cell World)) :=
  match ps with
  | [] => Some (this, h)
  | (fromSnapshot, toSnapshot) :: ps' =>
      match withSnapshotProcessor this (Some fromSnapshot) (Some toSnapshot) h with
      | Some (this', h') => withSnapshotProcessors ps' this' h'
      | None => None
      end
  end.

(** What the private cache of a full transform holds for a property of a
    model: the pair [{ originalValue, transformedValue }], if any. *)
Definition cachedPair (full : FullTransform) (model : Loc) (propName : PathElement)
    (h : list (Cell World)) : option (JsValue * JsValue) :=
  match transformCacheOf full h !! model with
  | Some modelCache => modelCache !! propName
  | None => None
  end.

(** [run] is a piece of the [untransform] machinery that returns the
    value and leaves the shared variable as [outcome] tells, and whose
    calls of [untransform] methods are [runs]: caches stay caches, a cell
    that is the cache of none of these calls is left as it was, and so is
    every pair that none of them is about. *)
Definition runsAs (run : ModuleState World -> JsValue * ModuleState World)
    (outcome : bool -> JsValue * bool) (runs : list (Addr * Loc * PathElement)) : Prop :=
  forall st,
    ((run st).1, cacheTransformResult (run st).2) = outcome (cacheTransformResult st)
    /\ (forall a m, store st !! a = Some (TransformCache m) ->
          exists m', store (run st).2 !! a = Some (TransformCache m'))
    /\ (forall a, (forall model propName, (a, model, propName) ∉ runs) ->
          store (run st).2 !! a = store st !! a)
    /\ (forall full model propName,
          (cache full, model, propName) ∉ runs ->
          cachedPair full model propName (store (run st).2)
          = cachedPair full model propName (store st)).

End WithWorld.

End PropChains.

Module LateCheck.

Import TypeCheck.

Section WithWorld.

(** Whatever the deferred [fn] may read and write. *)
Context {World : Type}.

(** [lateTypeChecker(fn, typeInfoGen)]: the function object [ltc]
    together with the variable [cached] it closes over ([None] while it is
    [undefined]). *)
Record LateTypeChecker := {
  fn : World -> TypeChecker * World;
  cached : option TypeChecker
}.

Definition lateTypeChecker (fn : World -> TypeChecker * World) : LateTypeChecker :=
  {| fn := fn; cached := None |}.

(** [ltc()]: [if (cached) return cached; cached = fn(); return cached] *)
Definition callLate (ltc : LateTypeChecker) (w : World)
  : TypeChecker * LateTypeChecker * World :=
  match cached ltc with
  | Some tc => (tc, ltc, w)
  | None =>
      let '(tc, w') := fn ltc w in
      (tc, {| fn := fn ltc; cached := Some tc |}, w')
  end.

(** [n] calls of [ltc()] in a row, with the checkers they return. *)
Fixpoint callLateTimes (n : nat) (ltc : LateTypeChecker) (w : World)
  : list TypeChecker * LateTypeChecker * World :=
  match n with
  | O => ([], ltc, w)
  | S n' =>
      let '(tc, ltc1, w1) := callLate ltc w in
      let '(tcs, ltc2, w2) := callLateTimes n' ltc1 w1 in
      (tc :: tcs, ltc2, w2)
  end.

End WithWorld.

Arguments LateTypeChecker : clear implicits.

End LateCheck.

(** * Properties *)

(** ** Reconciliation *)

Section ReconcileFacts.

Import Reconcile.

Variable getSnapshot : JsValue -> Heap -> Outcome JsValue.
Variable registerDefaultReconcilers : list Registration -> list Registration.
Variable templateString : JsValue -> string.

Variable set : Loc -> PathElement -> JsValue -> Heap -> Heap.
Variable modelTypeKey modelIdKey : PathElement.

Abbreviation reconcile := (reconcileSnapshot getSnapshot registerDefaultReconcilers templateString).

Lemma strictEquals_true (a b : JsValue) : strictEquals a b = true <-> a = b.
Proof. unfold strictEquals. apply bool_decide_eq_true. Qed.

Lemma strictEquals_false (a b : JsValue) : strictEquals a b = false <-> a <> b.
Proof. unfold strictEquals. apply bool_decide_eq_false. Qed.

(** When every reconciler declines, the loop invokes each of them once,
    in order, and falls through. *)
Lemma tryReconcilers_all_decline rs :
  forall i value sn modelPool parentObj h log,
    Forall (fun r => declines r value sn modelPool parentObj) rs ->
    exists h',
      tryReconcilers rs i value sn modelPool parentObj h log
      = (None, h', log ++ seq i (length rs)).
Proof.
  induction rs as [|r rs IH]; intros i value sn modelPool parentObj h log Hall.
  - exists h. simpl. by rewrite app_nil_r.
  - inversion Hall as [|? ? Hr Hrs]; subst.
    destruct (Hr h) as [h1 Hrun]. simpl. rewrite Hrun. simpl.
    destruct (IH (S i) value sn modelPool parentObj h1 (log ++ [i]) Hrs) as [h2 Hrest].
    exists h2. rewrite Hrest. by rewrite <- app_assoc.
Qed.

(** C1: if the snapshot of [value] is reference-identical to the target
    snapshot, [reconcileSnapshot] returns [value] itself and leaves the
    whole state as it was: the heap is untouched (nothing is allocated),
    no reconciler is invoked, and not even the default reconcilers are
    registered. *)
Theorem reconcileSnapshot_identity value sn current modelPool parentObj st :
  SnapshotContract getSnapshot ->
  getSnapshot value (heap st) = Returned current ->
  strictEquals current sn = true ->
  reconcile value sn modelPool parentObj st = (Returned value, st).
Proof.
  intros Hcontract Hsnap Heq.
  apply strictEquals_true in Heq. subst current.
  unfold reconcileSnapshot.
  destruct (isPrimitive sn) eqn:Hprim.
  - by rewrite (Hcontract _ _ _ Hsnap Hprim).
  - by rewrite Hsnap, (proj2 (strictEquals_true sn sn) eq_refl).
Qed.

(** C5 (amended): for a non-primitive snapshot that differs from the
    current snapshot of [value] and that no registered reconciler claims,
    [reconcileSnapshot] throws: "a snapshot must not contain maps" for a
    map, "a snapshot must not contain sets" for a set, and an
    "unsupported snapshot" failure otherwise. *)
Theorem reconcileSnapshot_unclaimed_fails value sn current modelPool parentObj st :
  isPrimitive sn = false ->
  getSnapshot value (heap st) = Returned current ->
  strictEquals current sn = false ->
  Forall (fun r => declines r value sn modelPool parentObj)
         (registerDefaultReconcilers (reconcilers st)) ->
  exists msg st',
    reconcile value sn modelPool parentObj st = (Thrown (Failure msg), st')
    /\ (isMap sn = true -> msg = "a snapshot must not contain maps")
    /\ (isSet sn = true -> msg = "a snapshot must not contain sets")
    /\ (isMap sn = false -> isSet sn = false ->
        msg = String.append "unsupported snapshot - " (templateString sn)).
Proof.
  intros Hprim Hsnap Hne Hall.
  unfold reconcileSnapshot. rewrite Hprim, Hsnap, Hne.
  destruct (tryReconcilers_all_decline _ 0%nat value sn modelPool parentObj
              (heap st) (invoked st) Hall) as [h' Hloop].
  rewrite Hloop.
  destruct sn as [| | | | | |c l]; try discriminate.
  destruct c; simpl; eexists _, _; (split; [reflexivity|]);
    repeat split; intros; congruence.
Qed.

(** C6: [detachIfNeeded] leaves the heap alone when the new value is the
    old one. Otherwise, for a model that the pool finds by its type and id
    and that has a parent, it assigns [null] to the slot of that parent, so
    that the old location reads [null] by the time the function returns
    (before the caller attaches the value elsewhere); in every remaining
    case the heap is left alone. *)
Theorem detachIfNeeded_detaches_old_location newValue oldValue modelPool h :
  SetContract set ->
  let found :=
    truthy (findModelByTypeAndId modelPool
              (getProperty h newValue modelTypeKey)
              (getProperty h newValue modelIdKey)) in
  let h' := detachIfNeeded set modelTypeKey modelIdKey newValue oldValue modelPool h in
  (strictEquals newValue oldValue = true -> h' = h)
  /\ (strictEquals newValue oldValue = false ->
      isModel newValue = true ->
      found = true ->
      forall parentPath,
        fastGetParentPathIncludingDataObjects newValue h = Some parentPath ->
        h' = set (parent parentPath) (path parentPath) VNull h
        /\ forall c, getProperty h' (VObject c (parent parentPath)) (path parentPath) = VNull)
  /\ (isModel newValue = false
      \/ found = false
      \/ fastGetParentPathIncludingDataObjects newValue h = None ->
      h' = h).
Proof.
  intros Hset found h'. subst found h'. unfold detachIfNeeded.
  split; [|split].
  - by intros ->.
  - intros -> -> -> parentPath ->. cbn [andb]. split; [done|]. intros c. apply Hset.
  - intros Hcase. destruct (strictEquals newValue oldValue); [done|].
    destruct Hcase as [-> | [-> | ->]]; [done| |].
    + by rewrite andb_false_r.
    + by destruct (_ && _).
Qed.

End ReconcileFacts.

Section ReconcileExamples.

Import Reconcile Examples.

Lemma getSnapshotEx_contract : SnapshotContract getSnapshotEx.
Proof.
  intros v h sn Hsnap Hprim. unfold getSnapshotEx in Hsnap.
  repeat case_match; simplify_eq; done.
Qed.

Lemma containerReconciler_declines value sn :
  isArray sn = false ->
  (forall l, sn <> VObject CPlainObject l) ->
  declines {| priority := 0%Z; reconciler := containerReconciler |} value sn emptyPool VUndefined.
Proof.
  intros Harr Hplain h. exists h. simpl. unfold containerReconciler.
  destruct sn as [| | | | | |c l]; try reflexivity.
  destruct c; try reflexivity; [by destruct (Hplain l)|discriminate].
Qed.

(** The tracked plain object at location 3, reconciled against its own
    snapshot. *)
Lemma reconcileSnapshot_identity_witness :
  getSnapshotEx trackedObject (heap stateEx) = Returned trackedSnapshot
  /\ reconcileSnapshot getSnapshotEx registerDefaultsEx templateStringEx
       trackedObject trackedSnapshot emptyPool VUndefined stateEx
     = (Returned trackedObject, stateEx).
Proof.
  split; [reflexivity|].
  apply (reconcileSnapshot_identity getSnapshotEx registerDefaultsEx templateStringEx
           trackedObject trackedSnapshot trackedSnapshot
           emptyPool VUndefined stateEx getSnapshotEx_contract);
    reflexivity.
Defined.

(** A map handed in as a snapshot where nothing was before. *)
Lemma reconcileSnapshot_unclaimed_fails_witness :
  exists st',
    reconcileSnapshot getSnapshotEx registerDefaultsEx templateStringEx
      VUndefined someMap emptyPool VUndefined stateEx
    = (Thrown (Failure "a snapshot must not contain maps"), st').
Proof.
  destruct (reconcileSnapshot_unclaimed_fails getSnapshotEx registerDefaultsEx
              templateStringEx VUndefined someMap VUndefined emptyPool VUndefined
              stateEx)
    as (msg & st' & Hrun & Hmap & _).
  - reflexivity.
  - reflexivity.
  - reflexivity.
  - repeat constructor. by apply containerReconciler_declines.
  - exists st'. rewrite Hrun. by rewrite Hmap.
Defined.

(** C5, as stated, fails: the model at location 1 has the object at
    location 2 as its current snapshot; that object is not primitive and
    no registered reconciler claims it, and yet reconciling the model
    against it returns the model instead of throwing. *)
Lemma reconcileSnapshot_unclaimed_identity_returns :
  isPrimitive processedSnapshot = false
  /\ Forall (fun r => declines r processedModel processedSnapshot emptyPool VUndefined)
       (registerDefaultsEx (reconcilers stateEx))
  /\ reconcileSnapshot getSnapshotEx registerDefaultsEx templateStringEx
       processedModel processedSnapshot emptyPool VUndefined stateEx
     = (Returned processedModel, stateEx)
  /\ (forall e st',
        reconcileSnapshot getSnapshotEx registerDefaultsEx templateStringEx
          processedModel processedSnapshot emptyPool VUndefined stateEx
        <> (Thrown e, st')).
Proof.
  split; [reflexivity|]. split; [|split].
  - repeat constructor. by apply containerReconciler_declines.
  - reflexivity.
  - intros e st'. discriminate.
Qed.

Lemma storeField_contract : SetContract storeField.
Proof.
  intros obj key value h c. unfold getProperty, storeField. simpl.
  rewrite lookup_insert_eq. by rewrite lookup_insert_eq.
Qed.

(** The model under key ["a"] of the object at location 8 is about to be
    attached elsewhere: the old slot reads [null] afterwards. *)
Lemma detachIfNeeded_detaches_old_location_witness :
  getProperty attachedHeap holder (inl "a") = modelEx
  /\ getProperty (detachIfNeeded storeField typeKeyEx idKeyEx modelEx VNull poolEx attachedHeap)
       holder (inl "a") = VNull
  /\ detachIfNeeded storeField typeKeyEx idKeyEx modelEx modelEx poolEx attachedHeap = attachedHeap.
Proof.
  pose proof (detachIfNeeded_detaches_old_location storeField typeKeyEx idKeyEx modelEx VNull poolEx
                attachedHeap storeField_contract) as (_ & Hswap & _).
  pose proof (detachIfNeeded_detaches_old_location storeField typeKeyEx idKeyEx modelEx modelEx poolEx
                attachedHeap storeField_contract) as (Hsame & _).
  split; [reflexivity|]. split.
  - apply (Hswap eq_refl eq_refl eq_refl {| parent := 8%positive; path := inl "a" |} eq_refl).
  - apply Hsame. reflexivity.
Defined.

End ReconcileExamples.

(** ** Type checking *)

Section TypeCheckFacts.

Import TypeCheck.

(** Decides whether [tc'] heads the listener list [tc :: set] or sits in
    its tail and whether [obj'] is the invalidated object, then compares
    the [decide]s of the goal. *)
Ltac listener_cases tc tc' obj obj' set :=
  destruct (decide (obj' = obj));
  destruct (decide (tc' = tc));
  destruct (decide (tc' ∈ set));
  repeat case_decide; try done; exfalso;
  rewrite ?elem_of_cons in *; intuition congruence.

Lemma elem_of_setAdd (x y : CheckerId) (s : list CheckerId) :
  x ∈ setAdd y s <-> x = y \/ x ∈ s.
Proof.
  unfold setAdd. case_decide as Hin.
  - split; [by right|]. intros [->|]; done.
  - rewrite elem_of_app, list_elem_of_singleton. tauto.
Qed.

(** *** The check-result cache *)

Lemma getCachedResult_setCachedResult tc obj r c :
  getCachedResult tc obj (setCachedResult tc obj r c) = Some r.
Proof.
  unfold setCachedResult, createCacheIfNeeded, getCachedResult.
  destruct (checkResultCache c !! tc); simpl; by rewrite !lookup_insert_eq.
Qed.

Lemma listenersOf_setCachedResult tc obj r c :
  tc ∈ listenersOf obj (setCachedResult tc obj r c).
Proof.
  unfold setCachedResult, createCacheIfNeeded, listenersOf.
  destruct (checkResultCache c !! tc); simpl; rewrite lookup_insert_eq; simpl;
    apply elem_of_setAdd; by left.
Qed.

Lemma getCachedResult_invalidateCachedResult tc obj tc' obj' c :
  getCachedResult tc' obj' (invalidateCachedResult tc obj c)
  = if decide (tc' = tc /\ obj' = obj) then None else getCachedResult tc' obj' c.
Proof.
  unfold invalidateCachedResult, getCachedResult.
  destruct (checkResultCache c !! tc) as [m|] eqn:Hm; simpl.
  - destruct (decide (tc' = tc)) as [->|Htc].
    + rewrite lookup_insert_eq, Hm.
      destruct (decide (obj' = obj)) as [->|Hobj].
      * rewrite lookup_delete_eq. by rewrite decide_True.
      * rewrite lookup_delete_ne by done. rewrite decide_False; [done|tauto].
    + rewrite lookup_insert_ne by done. rewrite decide_False; [done|tauto].
  - case_decide as Hsame; [|done]. destruct Hsame as [-> _]. by rewrite Hm.
Qed.

Lemma listeners_invalidateCachedResult tc obj c :
  typeCheckersWithCachedResultsOfObject (invalidateCachedResult tc obj c)
  = typeCheckersWithCachedResultsOfObject c.
Proof. unfold invalidateCachedResult. by destruct (checkResultCache c !! tc). Qed.

Lemma invalidate_all_listeners obj (set : list CheckerId) : forall c,
  let c' := foldl (fun acc tc => invalidateCachedResult tc obj acc) c set in
  typeCheckersWithCachedResultsOfObject c' = typeCheckersWithCachedResultsOfObject c
  /\ forall tc' obj',
       getCachedResult tc' obj' c'
       = if decide (tc' ∈ set /\ obj' = obj) then None else getCachedResult tc' obj' c.
Proof.
  induction set as [|tc set IH]; intros c; cbn [foldl].
  - split; [done|]. intros tc' obj'. case_decide as Hin; [|done].
    destruct Hin as [Hin _]. by apply elem_of_nil in Hin.
  - destruct (IH (invalidateCachedResult tc obj c)) as [Hreg Hget]. split.
    + by rewrite Hreg, listeners_invalidateCachedResult.
    + intros tc' obj'. rewrite Hget, getCachedResult_invalidateCachedResult.
      clear IH Hreg Hget.
      listener_cases tc tc' obj obj' set.
Qed.

Lemma getCachedResult_invalidateAt cur c tc obj :
  getCachedResult tc obj (invalidateAt cur c)
  = if decide (tc ∈ listenersOf cur c /\ obj = cur) then None else getCachedResult tc obj c.
Proof.
  unfold invalidateAt, listenersOf.
  destruct (typeCheckersWithCachedResultsOfObject c !! cur) as [set|] eqn:Hset.
  - destruct (invalidate_all_listeners cur set c) as [_ Hget].
    etrans; [|apply Hget]. reflexivity.
  - destruct (decide (tc ∈ default [] (@None (list CheckerId)) /\ obj = cur))
      as [[Hin _]|_]; [|done].
    by apply elem_of_nil in Hin.
Qed.

Lemma listeners_invalidateAt cur c obj :
  typeCheckersWithCachedResultsOfObject (invalidateAt cur c) !! obj
  = if decide (obj = cur) then None else typeCheckersWithCachedResultsOfObject c !! obj.
Proof.
  unfold invalidateAt.
  destruct (typeCheckersWithCachedResultsOfObject c !! cur) as [set|] eqn:Hset; simpl.
  - destruct (invalidate_all_listeners cur set c) as [Hreg _]. rewrite Hreg.
    case_decide as Hobj; [subst; apply lookup_delete_eq|by rewrite lookup_delete_ne].
  - case_decide as Hobj; [by subst|done].
Qed.

Lemma getCachedResult_setCachedResult_other tc obj r c tc' obj' :
  (tc', obj') <> (tc, obj) ->
  getCachedResult tc' obj' (setCachedResult tc obj r c) = getCachedResult tc' obj' c.
Proof.
  intros Hother.
  unfold setCachedResult, createCacheIfNeeded, getCachedResult.
  destruct (checkResultCache c !! tc) as [m|] eqn:Hm; simpl;
    (destruct (decide (tc' = tc)) as [Htc|Htc];
     [subst tc'; rewrite !lookup_insert_eq, ?Hm;
      assert (obj' <> obj) by congruence;
      by rewrite lookup_insert_ne
     |by rewrite !lookup_insert_ne]).
Qed.

Lemma listenersOf_setCachedResult_mono tc obj r c tc' obj' :
  tc' ∈ listenersOf obj' c -> tc' ∈ listenersOf obj' (setCachedResult tc obj r c).
Proof.
  unfold setCachedResult, createCacheIfNeeded, listenersOf.
  destruct (checkResultCache c !! tc); simpl; intros Hin;
    (destruct (decide (obj' = obj)) as [->|Hobj];
     [rewrite lookup_insert_eq; simpl; apply elem_of_setAdd; by right
     |by rewrite lookup_insert_ne]).
Qed.

(** The link between cached results and listeners holds initially and is
    kept by [setCachedResult] and by each round of the invalidation loop. *)
Lemma resultsHaveListeners_setCachedResult tc obj r c :
  resultsHaveListeners c -> resultsHaveListeners (setCachedResult tc obj r c).
Proof.
  intros Hcov tc' obj' r' Hget.
  destruct (decide ((tc', obj') = (tc, obj))) as [[= -> ->]|Hother].
  - apply listenersOf_setCachedResult.
  - rewrite getCachedResult_setCachedResult_other in Hget by done.
    apply listenersOf_setCachedResult_mono. by apply (Hcov _ _ r').
Qed.

Lemma resultsHaveListeners_invalidateAt cur c :
  resultsHaveListeners c -> resultsHaveListeners (invalidateAt cur c).
Proof.
  intros Hcov tc obj r Hget.
  rewrite getCachedResult_invalidateAt in Hget.
  case_decide as Hcase; [done|].
  pose proof (Hcov _ _ _ Hget) as Hin.
  unfold listenersOf in *. rewrite listeners_invalidateAt.
  case_decide as Hobj; [|done]. subst obj. exfalso. by apply Hcase.
Qed.

(** The loop clears the whole chain, adds nothing anywhere, and leaves
    objects off the chain alone. *)
Lemma invalidateFrom_chain t obj chain :
  ancestorChain t obj chain ->
  forall fuel c, (length chain <= fuel)%nat ->
  exists c',
    invalidateFrom fuel t (Some obj) c = Some c'
    /\ (forall tc a, getCachedResult tc a c = None -> getCachedResult tc a c' = None)
    /\ (forall a, typeCheckersWithCachedResultsOfObject c !! a = None ->
                  typeCheckersWithCachedResultsOfObject c' !! a = None)
    /\ (forall a, a ∈ chain ->
          typeCheckersWithCachedResultsOfObject c' !! a = None
          /\ forall tc, tc ∈ listenersOf a c -> getCachedResult tc a c' = None)
    /\ (forall a, a ∉ chain ->
          typeCheckersWithCachedResultsOfObject c' !! a
          = typeCheckersWithCachedResultsOfObject c !! a
          /\ forall tc, getCachedResult tc a c' = getCachedResult tc a c).
Proof.
  induction 1 as [obj Hroot|obj p rest Hparent Hchain IH]; intros fuel c Hfuel.
  - destruct fuel as [|fuel]; [simpl in Hfuel; lia|].
    exists (invalidateAt obj c). cbn [invalidateFrom]. rewrite Hroot.
    split; [by destruct fuel|]. split; [|split; [|split]].
    + intros tc a Hnone. rewrite getCachedResult_invalidateAt. by case_decide.
    + intros a Hnone. rewrite listeners_invalidateAt. by case_decide.
    + intros a Ha. apply list_elem_of_singleton in Ha as ->. split.
      * rewrite listeners_invalidateAt. by rewrite decide_True.
      * intros tc Hin. rewrite getCachedResult_invalidateAt. by rewrite decide_True.
    + intros a Ha.
      assert (a <> obj) as Hne by (intros ->; apply Ha; by apply list_elem_of_singleton).
      split.
      * rewrite listeners_invalidateAt. by rewrite decide_False.
      * intros tc. rewrite getCachedResult_invalidateAt.
        rewrite decide_False; [done|]. by intros [_ ?].
  - destruct fuel as [|fuel]; [simpl in Hfuel; lia|].
    destruct (IH fuel (invalidateAt obj c)) as (c' & Hrun & Hmono & Hregmono & Hin & Hout).
    { simpl in Hfuel. lia. }
    exists c'. cbn [invalidateFrom]. rewrite Hparent.
    split; [done|]. split; [|split; [|split]].
    + intros tc a Hnone. apply Hmono.
      rewrite getCachedResult_invalidateAt. by case_decide.
    + intros a Hnone. apply Hregmono.
      rewrite listeners_invalidateAt. by case_decide.
    + intros a Ha. destruct (decide (a = obj)) as [->|Hne].
      * split.
        -- apply Hregmono. rewrite listeners_invalidateAt. by rewrite decide_True.
        -- intros tc Hlisten. apply Hmono.
           rewrite getCachedResult_invalidateAt. by rewrite decide_True.
      * apply elem_of_cons in Ha as [->|Hrest]; [done|].
        split; [by apply Hin|].
        intros tc Hlisten. apply Hin; [done|]. unfold listenersOf in *.
        rewrite listeners_invalidateAt. by rewrite decide_False.
    + intros a Ha.
      assert (a <> obj) as Hne by (intros ->; apply Ha; left).
      assert (a ∉ rest) as Hrest by (intros Hrest; apply Ha; by right).
      split.
      * rewrite (proj1 (Hout a Hrest)), listeners_invalidateAt. by rewrite decide_False.
      * intros tc. rewrite (proj2 (Hout a Hrest)), getCachedResult_invalidateAt.
        rewrite decide_False; [done|]. by intros [_ ?].
Qed.

(** C8: a checker constructed without a validation function passes every
    value at every path, and touches nothing. *)
Theorem check_unchecked_always_passes id base fromProcessor toProcessor value p s :
  check {| identity := id; baseType := base; _check := None;
           _fromSnapshotProcessor := fromProcessor;
           _toSnapshotProcessor := toProcessor |} value p s
  = (None, s).
Proof. reflexivity. Qed.

(** A [check] by any checker leaves a cached result of another
    (checker, node) pair in place, as long as the validation it runs
    does. *)
Lemma check_keeps_cached_result tc2 value2 p2 s0 tc obj r :
  getCachedResult tc obj (caches s0) = Some r ->
  (forall f2, _check tc2 = Some f2 -> keepsCachedResult f2 tc obj) ->
  getCachedResult tc obj (caches (check tc2 value2 p2 s0).2) = Some r
  /\ tree (check tc2 value2 p2 s0).2 = tree s0.
Proof.
  intros Hcached Hkeeps. unfold check, unchecked.
  destruct (_check tc2) as [f2|] eqn:Hcheck2; [|done].
  specialize (Hkeeps f2 eq_refl).
  destruct (isTweakedObject value2 (tree s0)) as [obj2|].
  - destruct (getCachedResult (identity tc2) obj2 (caches s0)) as [r2|] eqn:Hcached2; [done|].
    unfold runCheck.
    pose proof (Hkeeps value2 emptyPath (tree s0) (caches s0)) as Hkept.
    destruct (f2 value2 emptyPath (tree s0) (caches s0)) as [r2 c2].
    cbn [fst snd caches tree] in *. split; [|done].
    rewrite getCachedResult_setCachedResult_other; [by rewrite Hkept|].
    intros [= -> ->]. by rewrite Hcached in Hcached2.
  - unfold runCheck.
    pose proof (Hkeeps value2 p2 (tree s0) (caches s0)) as Hkept.
    destruct (f2 value2 p2 (tree s0) (caches s0)) as [r2 c2].
    cbn [fst snd caches tree] in *. split; [by rewrite Hkept|done].
Qed.

Lemma checkAll_keeps_cached_result requests : forall s0 tc obj r,
  getCachedResult tc obj (caches s0) = Some r ->
  (forall tc2 value2 p2 f2,
      (tc2, value2, p2) ∈ requests -> _check tc2 = Some f2 -> keepsCachedResult f2 tc obj) ->
  getCachedResult tc obj (caches (checkAll requests s0)) = Some r
  /\ tree (checkAll requests s0) = tree s0.
Proof.
  induction requests as [|[[tc2 value2] p2] requests IH]; intros s0 tc obj r Hcached Hkeeps.
  - done.
  - unfold checkAll. cbn [foldl]. fold (checkAll requests (check tc2 value2 p2 s0).2).
    destruct (check_keeps_cached_result tc2 value2 p2 s0 tc obj r Hcached) as [Hcached1 Htree1].
    { intros f2. apply (Hkeeps tc2 value2 p2). left. }
    destruct (IH (check tc2 value2 p2 s0).2 tc obj r Hcached1) as [Hcached2 Htree2].
    { intros tc3 value3 p3 f3 Hin. apply (Hkeeps tc3 value3 p3). by right. }
    split; [done|]. by rewrite Htree2.
Qed.

(** C3: for a checked type and a tracked node, a cache hit returns the
    cached result with [p] put in front of its path ([null] stays
    [null]) and runs nothing; a miss runs the validation once, with the
    empty path, stores the outcome for this (checker, node) pair and
    registers the checker as a listener, so that every later call is a
    hit.  Storing it leaves the result of every other (checker, node)
    pair and every listener as the validation left them; so whatever is
    checked afterwards, by this checker on other nodes or by other
    checkers, the node is not validated again as long as those
    validations leave its entry alone. *)
Theorem check_caches_per_node tc f value obj p s :
  _check tc = Some f ->
  isTweakedObject value (tree s) = Some obj ->
  (forall cached,
      getCachedResult (identity tc) obj (caches s) = Some cached ->
      check tc value p s = (rebase p cached, s))
  /\ (getCachedResult (identity tc) obj (caches s) = None ->
      let computed := (f value emptyPath (tree s) (caches s)).1 in
      let validated := (f value emptyPath (tree s) (caches s)).2 in
      exists s',
        check tc value p s = (rebase p computed, s')
        /\ calls s' = calls s ++ [CallCheck (identity tc) value emptyPath]
        /\ tree s' = tree s
        /\ getCachedResult (identity tc) obj (caches s') = Some computed
        /\ identity tc ∈ listenersOf obj (caches s')
        /\ (forall p', check tc value p' s' = (rebase p' computed, s'))
        /\ (forall tc' obj',
              (tc', obj') <> (identity tc, obj) ->
              getCachedResult tc' obj' (caches s') = getCachedResult tc' obj' validated)
        /\ (forall tc' obj',
              tc' ∈ listenersOf obj' validated -> tc' ∈ listenersOf obj' (caches s'))
        /\ (forall requests,
              (forall tc2 value2 p2 f2,
                  (tc2, value2, p2) ∈ requests -> _check tc2 = Some f2 ->
                  keepsCachedResult f2 (identity tc) obj) ->
              let s2 := checkAll requests s' in
              getCachedResult (identity tc) obj (caches s2) = Some computed
              /\ forall p', check tc value p' s2 = (rebase p' computed, s2)))
  /\ rebase p None = None
  /\ (forall err,
        rebase p (Some err)
        = Some {| path := p ++ path err;
                  expectedTypeName := expectedTypeName err;
                  actualValue := actualValue err |}).
Proof.
  intros Hcheck Htweaked.
  assert (forall q s0 cached,
             tree s0 = tree s ->
             getCachedResult (identity tc) obj (caches s0) = Some cached ->
             check tc value q s0 = (rebase q cached, s0)) as Hhit.
  { intros q s0 cached Htree Hcached. unfold check, unchecked.
    by rewrite Hcheck, Htree, Htweaked, Hcached. }
  split; [|split; [|split]]; [| |reflexivity|reflexivity].
  - intros cached Hcached. by apply Hhit.
  - intros Hmiss computed validated. subst computed validated.
    destruct (f value emptyPath (tree s) (caches s)) as [r c'] eqn:Hrun.
    cbn [fst snd].
    set (s' := {| tree := tree s;
                  caches := setCachedResult (identity tc) obj r c';
                  calls := calls s ++ [CallCheck (identity tc) value emptyPath] |}).
    exists s'.
    assert (getCachedResult (identity tc) obj (caches s') = Some r) as Hstored
      by apply getCachedResult_setCachedResult.
    split; [|split; [done|split; [done|split; [done|split; [|split; [|split; [|split]]]]]]].
    + unfold check, unchecked, runCheck.
      by rewrite Hcheck, Htweaked, Hmiss, Hrun.
    + apply listenersOf_setCachedResult.
    + intros p'. by apply Hhit.
    + intros tc' obj' Hother. by apply getCachedResult_setCachedResult_other.
    + intros tc' obj'. apply listenersOf_setCachedResult_mono.
    + intros requests Hkeeps.
      destruct (checkAll_keeps_cached_result requests s' (identity tc) obj r Hstored Hkeeps)
        as [Hcached2 Htree2].
      split; [done|]. intros p'. apply Hhit; [by rewrite Htree2|done].
Qed.

(** *** Ancestor chains are short *)

Lemma ancestorChain_unique t obj chain1 :
  ancestorChain t obj chain1 ->
  forall chain2, ancestorChain t obj chain2 -> chain1 = chain2.
Proof.
  induction 1 as [obj Hroot|obj p rest Hparent Hchain IH];
    intros chain2 Hother; inversion Hother as [? Hroot'|? p' rest' Hparent' Hchain']; subst.
  - done.
  - congruence.
  - congruence.
  - rewrite Hparent in Hparent'. injection Hparent' as <-. by rewrite (IH rest').
Qed.

Lemma ancestorChain_from_member t obj chain :
  ancestorChain t obj chain ->
  forall a, a ∈ chain ->
  exists suffix, ancestorChain t a suffix /\ (length suffix <= length chain)%nat.
Proof.
  induction 1 as [obj Hroot|obj p rest Hparent Hchain IH]; intros a Ha.
  - apply list_elem_of_singleton in Ha as ->. exists [obj]. split; [by constructor|done].
  - apply elem_of_cons in Ha as [->|Ha].
    + exists (obj :: rest). split; [by econstructor|done].
    + destruct (IH a Ha) as (suffix & Hsuffix & Hlen).
      exists suffix. split; [done|]. simpl. lia.
Qed.

Lemma ancestorChain_NoDup t obj chain : ancestorChain t obj chain -> NoDup chain.
Proof.
  induction 1 as [obj Hroot|obj p rest Hparent Hchain IH].
  - apply NoDup_singleton.
  - apply NoDup_cons. split; [|done].
    intros Hin.
    destruct (ancestorChain_from_member _ _ _ Hchain obj Hin) as (suffix & Hsuffix & Hlen).
    assert (suffix = obj :: rest) as ->
      by (eapply ancestorChain_unique; [done|by econstructor]).
    simpl in Hlen. lia.
Qed.

Lemma ancestorChain_links t obj chain :
  ancestorChain t obj chain ->
  exists below root,
    chain = below ++ [root] /\ forall a, a ∈ below -> a ∈ dom (objectParents t).
Proof.
  induction 1 as [obj Hroot|obj p rest Hparent Hchain IH].
  - exists [], obj. split; [done|]. intros a Ha. by apply elem_of_nil in Ha.
  - destruct IH as (below & root & -> & Hdom).
    exists (obj :: below), root. split; [done|].
    intros a Ha. apply elem_of_cons in Ha as [->|Ha]; [|by apply Hdom].
    apply elem_of_dom. unfold fastGetParentIncludingDataObjects in Hparent. by eexists.
Qed.

Lemma ancestorChain_length t obj chain :
  ancestorChain t obj chain -> (length chain <= S (size (objectParents t)))%nat.
Proof.
  intros Hchain.
  pose proof (ancestorChain_NoDup _ _ _ Hchain) as Hnodup.
  destruct (ancestorChain_links _ _ _ Hchain) as (below & root & -> & Hdom).
  apply NoDup_app in Hnodup as (Hbelow & _ & _).
  rewrite length_app. simpl.
  assert (length below <= size (objectParents t))%nat; [|lia].
  rewrite <- size_dom, <- (size_list_to_set (C := gset Loc) below) by done.
  apply subseteq_size. intros a Ha. apply elem_of_list_to_set in Ha. by apply Hdom.
Qed.

(** C4: invalidating [obj] reaches [obj] and every ancestor up to the
    root. For each of them the listener entry is removed from the
    registry and every checker that was listed there loses its cached
    result; when every cached result has its checker listed (which
    [setCachedResult] ensures), no checker at all keeps a result for
    these objects. *)
Theorem invalidateCachedTypeCheckerResult_clears_ancestors obj chain s :
  ancestorChain (tree s) obj chain ->
  exists s',
    invalidateCachedTypeCheckerResult obj s = Some s'
    /\ tree s' = tree s
    /\ calls s' = calls s
    /\ forall a, a ∈ chain ->
         typeCheckersWithCachedResultsOfObject (caches s') !! a = None
         /\ (forall tc, tc ∈ listenersOf a (caches s) ->
                        getCachedResult tc a (caches s') = None)
         /\ (resultsHaveListeners (caches s) ->
             forall tc, getCachedResult tc a (caches s') = None).
Proof.
  intros Hchain.
  destruct (invalidateFrom_chain _ _ _ Hchain (S (size (objectParents (tree s))))
              (caches s) (ancestorChain_length _ _ _ Hchain))
    as (c' & Hrun & Hmono & _ & Hin & _).
  unfold invalidateCachedTypeCheckerResult. rewrite Hrun.
  eexists. split; [reflexivity|]. simpl. repeat split.
  - by apply Hin.
  - by apply Hin.
  - intros Hcovered tc.
    destruct (getCachedResult tc a (caches s)) as [r|] eqn:Hold.
    + apply Hin; [done|]. by apply (Hcovered tc a r).
    + by apply Hmono.
Qed.

(** *** The snapshot-processor cache *)

Lemma snapshotProcessorCache_invalidate tc obj c tc' obj' :
  snapshotProcessorCacheOf tc' (invalidateSnapshotProcessorCachedResult tc obj c) !! obj'
  = if decide (tc' = tc /\ obj' = obj) then None else snapshotProcessorCacheOf tc' c !! obj'.
Proof.
  unfold invalidateSnapshotProcessorCachedResult, snapshotProcessorCacheOf.
  cbn [toSnapshotProcessorCache].
  destruct (decide (tc' = tc)) as [Htc|Htc].
  - subst tc'. rewrite lookup_insert_eq. cbn [from_option id].
    destruct (decide (obj' = obj)) as [Hobj|Hobj].
    + subst obj'. rewrite lookup_delete_eq. by rewrite decide_True.
    + rewrite lookup_delete_ne by done. rewrite decide_False; [done|tauto].
  - rewrite lookup_insert_ne by done. rewrite decide_False; [done|tauto].
Qed.

Lemma invalidate_all_snapshot_listeners obj (set : list CheckerId) : forall c,
  let c' := foldl (fun acc tc => invalidateSnapshotProcessorCachedResult tc obj acc) c set in
  typeCheckersWithCachedSnapshotProcessorResultsOfObject c'
  = typeCheckersWithCachedSnapshotProcessorResultsOfObject c
  /\ forall tc' obj',
       snapshotProcessorCacheOf tc' c' !! obj'
       = if decide (tc' ∈ set /\ obj' = obj) then None
         else snapshotProcessorCacheOf tc' c !! obj'.
Proof.
  induction set as [|tc set IH]; intros c; cbn [foldl].
  - split; [done|]. intros tc' obj'. case_decide as Hin; [|done].
    destruct Hin as [Hin _]. by apply elem_of_nil in Hin.
  - destruct (IH (invalidateSnapshotProcessorCachedResult tc obj c)) as [Hreg Hget].
    split; [by rewrite Hreg|].
    intros tc' obj'. rewrite Hget, snapshotProcessorCache_invalidate.
    clear IH Hreg Hget.
    listener_cases tc tc' obj obj' set.
Qed.

Lemma invalidateCachedToSnapshotProcessorResult_clears obj s :
  let s' := invalidateCachedToSnapshotProcessorResult obj s in
  typeCheckersWithCachedSnapshotProcessorResultsOfObject (caches s') !! obj = None
  /\ forall tc, tc ∈ snapshotProcessorListenersOf obj (caches s) ->
                snapshotProcessorCacheOf tc (caches s') !! obj = None.
Proof.
  unfold invalidateCachedToSnapshotProcessorResult, snapshotProcessorListenersOf.
  destruct (typeCheckersWithCachedSnapshotProcessorResultsOfObject (caches s) !! obj)
    as [set|] eqn:Hset; cbn zeta.
  - destruct (invalidate_all_snapshot_listeners obj set (caches s)) as [_ Hget].
    split; [apply lookup_delete_eq|].
    intros tc Hin. etrans; [apply (Hget tc obj)|]. by rewrite decide_True.
  - split; [done|]. intros tc Hin. by apply elem_of_nil in Hin.
Qed.

Lemma rememberSnapshotProcessorResult_spec tc obj val c :
  let c' := rememberSnapshotProcessorResult tc obj val c in
  snapshotProcessorCacheOf tc c' !! obj = Some val
  /\ tc ∈ snapshotProcessorListenersOf obj c'.
Proof.
  unfold rememberSnapshotProcessorResult, snapshotProcessorCacheOf,
    snapshotProcessorListenersOf.
  cbn [toSnapshotProcessorCache typeCheckersWithCachedSnapshotProcessorResultsOfObject].
  rewrite !lookup_insert_eq. cbn [from_option id]. rewrite lookup_insert_eq.
  split; [done|]. apply elem_of_setAdd. by left.
Qed.

Lemma snapshotProcessorCache_remember_other tc obj val c tc' obj' :
  (tc', obj') <> (tc, obj) ->
  snapshotProcessorCacheOf tc' (rememberSnapshotProcessorResult tc obj val c) !! obj'
  = snapshotProcessorCacheOf tc' c !! obj'.
Proof.
  intros Hother. unfold rememberSnapshotProcessorResult.
  unfold snapshotProcessorCacheOf at 1. cbn [toSnapshotProcessorCache].
  destruct (decide (tc' = tc)) as [Htc|Htc].
  - subst tc'. rewrite lookup_insert_eq. cbn [from_option id].
    assert (obj' <> obj) by congruence. by rewrite lookup_insert_ne.
  - by rewrite lookup_insert_ne.
Qed.

Lemma snapshotProcessorListeners_remember_mono tc obj val c tc' obj' :
  tc' ∈ snapshotProcessorListenersOf obj' c ->
  tc' ∈ snapshotProcessorListenersOf obj' (rememberSnapshotProcessorResult tc obj val c).
Proof.
  unfold rememberSnapshotProcessorResult, snapshotProcessorListenersOf.
  cbn [typeCheckersWithCachedSnapshotProcessorResultsOfObject]. intros Hin.
  destruct (decide (obj' = obj)) as [->|Hobj].
  - rewrite lookup_insert_eq. cbn [from_option id]. apply elem_of_setAdd. by right.
  - by rewrite lookup_insert_ne.
Qed.

(** The three ways through [toSnapshotProcessor]. *)
Lemma toSnapshotProcessor_hit tc c obj s cached :
  c <> CFunction ->
  snapshotProcessorCacheOf (identity tc) (caches s) !! obj = Some cached ->
  toSnapshotProcessor tc (VObject c obj) s = (cached, s).
Proof.
  intros Hc Hcached. unfold toSnapshotProcessor.
  destruct c; try done; cbn; by rewrite Hcached.
Qed.

Lemma toSnapshotProcessor_miss tc c obj s :
  c <> CFunction ->
  snapshotProcessorCacheOf (identity tc) (caches s) !! obj = None ->
  let sn := VObject c obj in
  toSnapshotProcessor tc sn s
  = ((_toSnapshotProcessor tc sn (tree s) (caches s)).1,
     {| tree := tree s;
        caches := rememberSnapshotProcessorResult (identity tc) obj
                    (_toSnapshotProcessor tc sn (tree s) (caches s)).1
                    (_toSnapshotProcessor tc sn (tree s) (caches s)).2;
        calls := calls s ++ [CallToSnapshotProcessor (identity tc) sn] |}).
Proof.
  intros Hc Hnone sn. subst sn. unfold toSnapshotProcessor, runProcessor.
  destruct (_toSnapshotProcessor tc (VObject c obj) (tree s) (caches s)) as [val c1].
  destruct c; try done; cbn; by rewrite Hnone.
Qed.

Lemma toSnapshotProcessor_not_cacheable tc sn s :
  (forall c obj, sn = VObject c obj -> c = CFunction) ->
  toSnapshotProcessor tc sn s
  = ((_toSnapshotProcessor tc sn (tree s) (caches s)).1,
     {| tree := tree s;
        caches := (_toSnapshotProcessor tc sn (tree s) (caches s)).2;
        calls := calls s ++ [CallToSnapshotProcessor (identity tc) sn] |}).
Proof.
  intros Hplain. unfold toSnapshotProcessor, runProcessor.
  destruct (_toSnapshotProcessor tc sn (tree s) (caches s)) as [val c1].
  destruct sn as [| | | | | |c l]; try done.
  by rewrite (Hplain c l eq_refl).
Qed.

(** A [toSnapshotProcessor] call by any checker leaves a value cached for
    another (checker, object) pair and its listener in place, as long as
    the processor it runs does. *)
Lemma toSnapshotProcessor_keeps tc2 sn2 s0 tc obj val :
  snapshotProcessorCacheOf tc (caches s0) !! obj = Some val ->
  tc ∈ snapshotProcessorListenersOf obj (caches s0) ->
  keepsSnapshotProcessorResult (_toSnapshotProcessor tc2) tc obj ->
  keepsSnapshotProcessorListeners (_toSnapshotProcessor tc2) obj ->
  snapshotProcessorCacheOf tc (caches (toSnapshotProcessor tc2 sn2 s0).2) !! obj = Some val
  /\ tc ∈ snapshotProcessorListenersOf obj (caches (toSnapshotProcessor tc2 sn2 s0).2).
Proof.
  intros Hcached Hlisten Hkeeps Hkeeps'.
  pose proof (Hkeeps sn2 (tree s0) (caches s0)) as Hkept.
  pose proof (Hkeeps' sn2 (tree s0) (caches s0) tc Hlisten) as Hkept'.
  assert ((exists c2 obj2, sn2 = VObject c2 obj2 /\ c2 <> CFunction)
          \/ ~ (exists c2 obj2, sn2 = VObject c2 obj2 /\ c2 <> CFunction))
    as [(c2 & obj2 & -> & Hc2)|Hplain].
  { destruct sn2 as [| | | | | |c2 obj2]; try (right; by intros (? & ? & ? & ?)).
    destruct (decide (c2 = CFunction)) as [->|Hc2].
    - right. intros (? & ? & [= <- <-] & Hne). done.
    - left. by exists c2, obj2. }
  - destruct (snapshotProcessorCacheOf (identity tc2) (caches s0) !! obj2)
      as [cached2|] eqn:Hcached2.
    + by rewrite (toSnapshotProcessor_hit tc2 c2 obj2 s0 cached2).
    + rewrite (toSnapshotProcessor_miss tc2 c2 obj2 s0) by done. cbn [snd caches].
      split.
      * rewrite snapshotProcessorCache_remember_other; [by rewrite Hkept|].
        intros [= -> ->]. by rewrite Hcached in Hcached2.
      * by apply snapshotProcessorListeners_remember_mono.
  - rewrite toSnapshotProcessor_not_cacheable.
    + cbn [snd caches]. split; [by rewrite Hkept|done].
    + intros c2 obj2 ->. destruct (decide (c2 = CFunction)) as [|Hc2]; [done|].
      exfalso. apply Hplain. by exists c2, obj2.
Qed.

Lemma toSnapshotProcessorAll_keeps requests : forall s0 tc obj val,
  snapshotProcessorCacheOf tc (caches s0) !! obj = Some val ->
  tc ∈ snapshotProcessorListenersOf obj (caches s0) ->
  (forall tc2 sn2,
      (tc2, sn2) ∈ requests ->
      keepsSnapshotProcessorResult (_toSnapshotProcessor tc2) tc obj
      /\ keepsSnapshotProcessorListeners (_toSnapshotProcessor tc2) obj) ->
  snapshotProcessorCacheOf tc (caches (toSnapshotProcessorAll requests s0)) !! obj = Some val
  /\ tc ∈ snapshotProcessorListenersOf obj (caches (toSnapshotProcessorAll requests s0)).
Proof.
  induction requests as [|[tc2 sn2] requests IH]; intros s0 tc obj val Hcached Hlisten Hkeeps.
  - done.
  - unfold toSnapshotProcessorAll. cbn [foldl].
    fold (toSnapshotProcessorAll requests (toSnapshotProcessor tc2 sn2 s0).2).
    destruct (Hkeeps tc2 sn2) as [Hkeeps2 Hkeeps2']; [by left|].
    destruct (toSnapshotProcessor_keeps tc2 sn2 s0 tc obj val Hcached Hlisten Hkeeps2 Hkeeps2')
      as [Hcached1 Hlisten1].
    apply IH; [done|done|].
    intros tc3 sn3 Hin. apply (Hkeeps tc3 sn3). by right.
Qed.

(** C7: [fromSnapshotProcessor] runs the underlying processor on every
    call, whatever the state.  [toSnapshotProcessor] runs it on every
    call for an input that is not an object; for an object input a
    cached value is returned without running anything, and a miss runs
    the processor once, stores its value under the object and registers
    the checker, so that the next call is a hit; the invalidation of
    that object then removes the entry and the registration, and the
    call after that runs the processor again.  Storing a value leaves
    the value of every other (checker, object) pair and every listener
    as the processor left them: after any further calls, for other
    objects or by other checkers, the object is still a hit and its
    invalidation still reaches every checker that holds a value for
    it. *)
Theorem snapshotProcessor_caching tc sn s :
  let fromCall := CallFromSnapshotProcessor (identity tc) sn in
  let toCall := CallToSnapshotProcessor (identity tc) sn in
  (forall s0,
      (fromSnapshotProcessor tc sn s0).1
      = (_fromSnapshotProcessor tc sn (tree s0) (caches s0)).1
      /\ calls (fromSnapshotProcessor tc sn s0).2 = calls s0 ++ [fromCall])
  /\ (typeof sn <> "object" \/ sn = VNull ->
      toSnapshotProcessor tc sn s
      = ((_toSnapshotProcessor tc sn (tree s) (caches s)).1,
         {| tree := tree s;
            caches := (_toSnapshotProcessor tc sn (tree s) (caches s)).2;
            calls := calls s ++ [toCall] |}))
  /\ (forall c obj,
        sn = VObject c obj -> c <> CFunction ->
        (forall cached,
            snapshotProcessorCacheOf (identity tc) (caches s) !! obj = Some cached ->
            toSnapshotProcessor tc sn s = (cached, s))
        /\ (snapshotProcessorCacheOf (identity tc) (caches s) !! obj = None ->
            let val := (_toSnapshotProcessor tc sn (tree s) (caches s)).1 in
            let processed := (_toSnapshotProcessor tc sn (tree s) (caches s)).2 in
            exists s',
              toSnapshotProcessor tc sn s = (val, s')
              /\ calls s' = calls s ++ [toCall]
              /\ snapshotProcessorCacheOf (identity tc) (caches s') !! obj = Some val
              /\ identity tc ∈ snapshotProcessorListenersOf obj (caches s')
              /\ toSnapshotProcessor tc sn s' = (val, s')
              /\ (let s'' := invalidateCachedToSnapshotProcessorResult obj s' in
                  snapshotProcessorCacheOf (identity tc) (caches s'') !! obj = None
                  /\ typeCheckersWithCachedSnapshotProcessorResultsOfObject (caches s'') !! obj
                     = None
                  /\ calls (toSnapshotProcessor tc sn s'').2 = calls s'' ++ [toCall])
              /\ (forall tc' obj',
                    (tc', obj') <> (identity tc, obj) ->
                    snapshotProcessorCacheOf tc' (caches s') !! obj'
                    = snapshotProcessorCacheOf tc' processed !! obj')
              /\ (forall tc' obj',
                    tc' ∈ snapshotProcessorListenersOf obj' processed ->
                    tc' ∈ snapshotProcessorListenersOf obj' (caches s'))
              /\ (forall requests,
                    (forall tc2 sn2,
                        (tc2, sn2) ∈ requests ->
                        keepsSnapshotProcessorResult (_toSnapshotProcessor tc2) (identity tc) obj
                        /\ keepsSnapshotProcessorListeners (_toSnapshotProcessor tc2) obj) ->
                    let s2 := toSnapshotProcessorAll requests s' in
                    let s3 := invalidateCachedToSnapshotProcessorResult obj s2 in
                    toSnapshotProcessor tc sn s2 = (val, s2)
                    /\ identity tc ∈ snapshotProcessorListenersOf obj (caches s2)
                    /\ snapshotProcessorCacheOf (identity tc) (caches s3) !! obj = None
                    /\ (forall tc',
                          tc' ∈ snapshotProcessorListenersOf obj (caches s2) ->
                          snapshotProcessorCacheOf tc' (caches s3) !! obj = None))))
  /\ (forall obj tc',
        tc' ∈ snapshotProcessorListenersOf obj (caches s) ->
        snapshotProcessorCacheOf tc'
          (caches (invalidateCachedToSnapshotProcessorResult obj s)) !! obj = None).
Proof.
  intros fromCall toCall.
  split; [|split; [|split]].
  - intros s0. unfold fromSnapshotProcessor, runProcessor.
    by destruct (_fromSnapshotProcessor tc sn (tree s0) (caches s0)).
  - intros Hplain. apply toSnapshotProcessor_not_cacheable.
    intros c obj ->. destruct Hplain as [Htype|Hnull]; [|done].
    destruct c; try done.
  - intros c obj -> Hc.
    split; [intros cached Hcached; by apply toSnapshotProcessor_hit|].
    intros Hnone val processed.
    set (s1 := {| tree := tree s;
                  caches := rememberSnapshotProcessorResult (identity tc) obj val processed;
                  calls := calls s ++ [toCall] |}).
    exists s1.
    pose proof (rememberSnapshotProcessorResult_spec (identity tc) obj val processed)
      as [Hstored Hlisten].
    pose proof (invalidateCachedToSnapshotProcessorResult_clears obj s1) as [Hreg Hgone].
    split; [by apply toSnapshotProcessor_miss|].
    split; [done|]. split; [exact Hstored|]. split; [exact Hlisten|].
    split; [by apply toSnapshotProcessor_hit|].
    split; [|split; [|split]].
    + split; [by apply Hgone|]. split; [exact Hreg|].
      rewrite toSnapshotProcessor_miss; [done|done|]. by apply Hgone.
    + intros tc' obj' Hother. by apply snapshotProcessorCache_remember_other.
    + intros tc' obj'. apply snapshotProcessorListeners_remember_mono.
    + intros requests Hkeeps.
      destruct (toSnapshotProcessorAll_keeps requests s1 (identity tc) obj val
                  Hstored Hlisten Hkeeps) as [Hcached2 Hlisten2].
      pose proof (invalidateCachedToSnapshotProcessorResult_clears obj
                    (toSnapshotProcessorAll requests s1)) as [_ Hgone2].
      split; [by apply toSnapshotProcessor_hit|]. split; [done|].
      split; [by apply Hgone2|]. exact Hgone2.
  - intros obj tc' Hin.
    by apply (invalidateCachedToSnapshotProcessorResult_clears obj s).
Qed.

End TypeCheckFacts.

Section TypeCheckExamples.

Import TypeCheck CheckerExamples.

Lemma treeEx_chain : ancestorChain treeEx 10%positive [10%positive; 11%positive; 12%positive].
Proof.
  apply chain_step with (p := 11%positive); [reflexivity|].
  apply chain_step with (p := 12%positive); [reflexivity|].
  apply chain_root. reflexivity.
Qed.

(** The first check of the todo below [todos[0]] runs the validation
    once with the empty path; the error comes back rebased, and later
    checks do not run anything.  Neither does a check of the todo that
    comes after a check of the array by the same checker and a check of
    the todo by another one: the validation has run once per checker and
    node. *)
Lemma check_caches_per_node_witness :
  exists s',
    check todoChecker todo [inl "todos"; inr 0%Z] freshState
    = (Some {| path := [inl "todos"; inr 0%Z; inl "title"];
               expectedTypeName := "string";
               actualValue := VNumber 5 |}, s')
    /\ calls s' = [CallCheck 1%positive todo []]
    /\ check todoChecker todo [inl "archive"] s'
       = (Some {| path := [inl "archive"; inl "title"];
                  expectedTypeName := "string";
                  actualValue := VNumber 5 |}, s')
    /\ let s2 := checkAll [(todoChecker, todos, [inl "todos"]); (archiveChecker, todo, [])] s' in
       check todoChecker todo [inl "archive"] s2
       = (Some {| path := [inl "archive"; inl "title"];
                  expectedTypeName := "string";
                  actualValue := VNumber 5 |}, s2)
       /\ calls (check todoChecker todo [inl "archive"] s2).2
          = [CallCheck 1%positive todo [];
             CallCheck 1%positive todos [];
             CallCheck 2%positive todo []].
Proof.
  destruct (check_caches_per_node todoChecker rejectTitle todo 10%positive
              [inl "todos"; inr 0%Z] freshState eq_refl eq_refl)
    as (_ & Hmiss & _).
  destruct (Hmiss eq_refl) as (s' & Hrun & Hcalls & _ & _ & _ & Hagain & _ & _ & Hlater).
  exists s'. split; [exact Hrun|]. split; [exact Hcalls|]. split; [apply Hagain|].
  destruct (Hlater [(todoChecker, todos, [inl "todos"]); (archiveChecker, todo, [])])
    as [_ Hhit].
  { intros tc2 value2 p2 f2 Hin Hf2 value' p' t c.
    repeat (apply elem_of_cons in Hin as [Heq|Hin];
            [injection Heq as -> -> ->; injection Hf2 as <-; reflexivity|]).
    by apply elem_of_nil in Hin. }
  split; [apply Hhit|].
  assert (s' = (check todoChecker todo [inl "todos"; inr 0%Z] freshState).2) as ->
    by (by rewrite Hrun).
  vm_compute. reflexivity.
Defined.

(** Invalidating the todo clears what both checkers hold for it and what
    is held for the array above it. *)
Lemma invalidateCachedTypeCheckerResult_clears_ancestors_witness :
  getCachedResult 1%positive 10%positive (caches cachedState) = Some (Some titleError)
  /\ getCachedResult 2%positive 10%positive (caches cachedState) = Some None
  /\ exists s',
       invalidateCachedTypeCheckerResult 10%positive cachedState = Some s'
       /\ getCachedResult 1%positive 10%positive (caches s') = None
       /\ getCachedResult 2%positive 10%positive (caches s') = None
       /\ getCachedResult 1%positive 11%positive (caches s') = None
       /\ typeCheckersWithCachedResultsOfObject (caches s') !! 10%positive = None.
Proof.
  split; [reflexivity|]. split; [reflexivity|].
  destruct (invalidateCachedTypeCheckerResult_clears_ancestors 10%positive
              [10%positive; 11%positive; 12%positive] cachedState treeEx_chain)
    as (s' & Hrun & _ & _ & Hclear).
  exists s'. split; [exact Hrun|].
  destruct (Hclear 10%positive) as (Hreg & Hlisteners & _); [repeat constructor|].
  destruct (Hclear 11%positive) as (_ & Hlisteners' & _); [repeat constructor|].
  split; [apply Hlisteners; vm_compute; repeat constructor|].
  split; [apply Hlisteners; vm_compute; repeat constructor|].
  split; [apply Hlisteners'; vm_compute; repeat constructor|].
  exact Hreg.
Defined.

(** Processing the snapshot of the todo twice runs the processor once;
    after the invalidation of the todo the entry is gone.  With the array
    processed by the same checker and the todo by a second checker in
    between, the todo is still a hit; its invalidation then clears what
    both checkers hold for it and leaves the value of the array. *)
Lemma snapshotProcessor_caching_witness :
  exists s',
    toSnapshotProcessor todoChecker todo freshState = (VString "processed", s')
    /\ calls s' = [CallToSnapshotProcessor 1%positive todo]
    /\ toSnapshotProcessor todoChecker todo s' = (VString "processed", s')
    /\ snapshotProcessorCacheOf 1%positive
         (caches (invalidateCachedToSnapshotProcessorResult 10%positive s')) !! 10%positive
       = None
    /\ let s2 := toSnapshotProcessorAll [(todoChecker, todos); (archiveChecker, todo)] s' in
       let s3 := invalidateCachedToSnapshotProcessorResult 10%positive s2 in
       toSnapshotProcessor todoChecker todo s2 = (VString "processed", s2)
       /\ calls (toSnapshotProcessor todoChecker todo s2).2
          = [CallToSnapshotProcessor 1%positive todo;
             CallToSnapshotProcessor 1%positive todos;
             CallToSnapshotProcessor 2%positive todo]
       /\ snapshotProcessorCacheOf 1%positive (caches s3) !! 10%positive = None
       /\ snapshotProcessorCacheOf 2%positive (caches s3) !! 10%positive = None
       /\ snapshotProcessorCacheOf 1%positive (caches s3) !! 11%positive
          = Some (VString "processed").
Proof.
  destruct (snapshotProcessor_caching todoChecker todo freshState)
    as (_ & _ & Hobject & _).
  destruct (Hobject CPlainObject 10%positive eq_refl) as [_ Hmiss]; [discriminate|].
  destruct (Hmiss eq_refl)
    as (s' & Hrun & Hcalls & _ & _ & Hagain & (Hgone & _) & _ & _ & Hlater).
  exists s'. split; [exact Hrun|]. split; [exact Hcalls|]. split; [exact Hagain|].
  split; [exact Hgone|].
  destruct (Hlater [(todoChecker, todos); (archiveChecker, todo)])
    as (Hhit & _ & Hgone1 & Hgoneall).
  { intros tc2 sn2 Hin.
    repeat (apply elem_of_cons in Hin as [Heq|Hin];
            [injection Heq as -> ->; split; [intros sn t c|intros sn t c tc' Hlisten]; done|]).
    by apply elem_of_nil in Hin. }
  split; [exact Hhit|].
  assert (s' = (toSnapshotProcessor todoChecker todo freshState).2) as Hs'
    by (by rewrite Hrun).
  split; [rewrite Hs'; vm_compute; reflexivity|].
  split; [exact Hgone1|].
  split; [|rewrite Hs'; vm_compute; reflexivity].
  apply Hgoneall. rewrite Hs'. vm_compute. repeat constructor.
Defined.

End TypeCheckExamples.

(** ** Model properties *)

Section ModelPropFacts.

Import ModelProps.

Context {World : Type}.

Implicit Types (h : list (Cell World)) (r : Internal World).

Lemma alloc_keeps cell h a old :
  h !! a = Some old -> (alloc cell h).2 !! a = Some old.
Proof. intros Hold. unfold alloc. simpl. by apply lookup_app_l_Some. Qed.

Lemma alloc_fresh cell h : h !! (alloc cell h).1 = None.
Proof. unfold alloc. simpl. by apply lookup_ge_None. Qed.

Lemma alloc_lookup cell h : (alloc cell h).2 !! (alloc cell h).1 = Some cell.
Proof. unfold alloc. simpl. by apply list_lookup_middle. Qed.

Lemma internalOf_alloc cell h a r :
  internalOf a h = Some r -> internalOf a (alloc cell h).2 = Some r.
Proof.
  unfold internalOf. intros Hr.
  destruct (h !! a) as [[i| |]|] eqn:Ha; try done.
  destruct (h !! i) as [[|r'|]|] eqn:Hi; try done.
  by rewrite (alloc_keeps _ _ _ _ Ha), (alloc_keeps _ _ _ _ Hi).
Qed.

(** [{ ...this, _internal: r' }] yields an object and a record that did
    not exist before and keeps every existing cell. *)
Lemma spreadWithInternal_spec r' h :
  let '(this', h') := spreadWithInternal r' h in
  h !! this' = None
  /\ (exists i', h' !! this' = Some (PropObject i') /\ h !! i' = None)
  /\ internalOf this' h' = Some r'
  /\ (forall a cell, h !! a = Some cell -> h' !! a = Some cell)
  /\ (forall a r, internalOf a h = Some r -> internalOf a h' = Some r).
Proof.
  unfold spreadWithInternal, alloc. simpl.
  assert ((h ++ [InternalRecord r']) !! length h = Some (InternalRecord r')) as Hrec
    by by apply list_lookup_middle.
  assert (((h ++ [InternalRecord r']) ++ [PropObject (length h)])
            !! length (h ++ [InternalRecord r']) = Some (PropObject (length h))) as Hobj
    by by apply list_lookup_middle.
  split; [apply lookup_ge_None; rewrite length_app; simpl; lia|].
  split; [exists (length h); split; [done|by apply lookup_ge_None]|].
  split.
  - unfold internalOf. rewrite Hobj. by rewrite (lookup_app_l_Some _ _ _ _ Hrec).
  - split.
    + intros a cell Ha. by do 2 apply lookup_app_l_Some.
    + intros a r Hr.
      apply (internalOf_alloc (PropObject (length h)) (h ++ [InternalRecord r'])).
      by apply (internalOf_alloc (InternalRecord r') h).
Qed.

(** Names the result of the [spreadWithInternal] on [h] in the goal and
    brings in what is known about it. *)
Ltac open_spread h this' h' Hspec :=
  match goal with
  | |- context [spreadWithInternal ?r' h] =>
      pose proof (spreadWithInternal_spec r' h) as Hspec;
      destruct (spreadWithInternal r' h) as [this' h']
  end.

(** What a call of [withSnapshotProcessor] on a valid receiver does. *)
Lemma withSnapshotProcessor_spec h this r fromSnapshot toSnapshot :
  internalOf this h = Some r ->
  exists this' h',
    withSnapshotProcessor this fromSnapshot toSnapshot h = Some (this', h')
    /\ (h !! this' = None
        /\ exists i', h' !! this' = Some (PropObject i') /\ h !! i' = None)
    /\ (forall a cell, h !! a = Some cell -> h' !! a = Some cell)
    /\ (forall a r0, internalOf a h = Some r0 -> internalOf a h' = Some r0)
    /\ internalOf this' h'
       = Some {| defaultFn := defaultFn r;
                 defaultValue := defaultValue r;
                 typeChecker := typeChecker r;
                 setter := setter r;
                 isId := isId r;
                 transform := transform r;
                 fromSnapshotProcessor :=
                   newFromSnapshot (fromSnapshotProcessor r) fromSnapshot;
                 toSnapshotProcessor :=
                   newToSnapshot (toSnapshotProcessor r) toSnapshot |}.
Proof.
  intros Hr. unfold withSnapshotProcessor. rewrite Hr.
  open_spread h this' h' Hspec.
  destruct Hspec as (Hfresh & Hobj & Hnew & Hcells & Hinternals).
  exists this', h'. repeat split; auto.
Qed.

(** C9: [withSetter], [withTransform] and [withSnapshotProcessor] each
    return a property object that did not exist before, with a fresh
    [_internal] record that differs from the receiver's in the fields the
    builder sets only; every existing cell is kept, so the receiver still
    reads the very same [_internal] record, field by field. *)
Theorem builders_leave_receiver_unchanged h this r :
  internalOf this h = Some r ->
  let fresh this' h' :=
    h !! this' = None
    /\ (exists i', h' !! this' = Some (PropObject i') /\ h !! i' = None) in
  let kept h' :=
    internalOf this h' = Some r
    /\ (forall a cell, h !! a = Some cell -> h' !! a = Some cell) in
  (forall mode, exists this' h',
      withSetter this mode h = Some (this', h')
      /\ fresh this' h' /\ kept h'
      /\ internalOf this' h'
         = Some {| defaultFn := defaultFn r;
                   defaultValue := defaultValue r;
                   typeChecker := typeChecker r;
                   setter := default (SetterBoolean true) mode;
                   isId := isId r;
                   transform := transform r;
                   fromSnapshotProcessor := fromSnapshotProcessor r;
                   toSnapshotProcessor := toSnapshotProcessor r |})
  /\ (forall t, exists this' h' full,
        withTransform this t h = Some (this', h')
        /\ fresh this' h' /\ kept h'
        /\ transformObject full = t
        /\ h !! cache full = None
        /\ internalOf this' h'
           = Some {| defaultFn := defaultFn r;
                     defaultValue := defaultValue r;
                     typeChecker := typeChecker r;
                     setter := setter r;
                     isId := isId r;
                     transform := Some full;
                     fromSnapshotProcessor := fromSnapshotProcessor r;
                     toSnapshotProcessor := toSnapshotProcessor r |})
  /\ (forall fromSnapshot toSnapshot, exists this' h',
        withSnapshotProcessor this fromSnapshot toSnapshot h = Some (this', h')
        /\ fresh this' h' /\ kept h'
        /\ internalOf this' h'
           = Some {| defaultFn := defaultFn r;
                     defaultValue := defaultValue r;
                     typeChecker := typeChecker r;
                     setter := setter r;
                     isId := isId r;
                     transform := transform r;
                     fromSnapshotProcessor :=
                       newFromSnapshot (fromSnapshotProcessor r) fromSnapshot;
                     toSnapshotProcessor :=
                       newToSnapshot (toSnapshotProcessor r) toSnapshot |}).
Proof.
  intros Hr fresh kept. subst fresh kept. cbn beta.
  split; [|split].
  - intros mode. unfold withSetter. rewrite Hr.
    open_spread h this' h' Hspec.
    destruct Hspec as (Hfresh & Hobj & Hnew & Hcells & Hinternals).
    exists this', h'. repeat split; auto.
  - intros t. unfold withTransform, toFullTransform. rewrite Hr.
    destruct (alloc (TransformCache ∅) h) as [c h1] eqn:Hcache.
    pose proof (alloc_fresh (TransformCache ∅) h) as Hc.
    pose proof (alloc_keeps (TransformCache ∅) h) as Hkeep1.
    pose proof (internalOf_alloc (TransformCache ∅) h) as Hint1.
    rewrite Hcache in Hc, Hkeep1, Hint1. simpl in Hc, Hkeep1, Hint1.
    open_spread h1 this' h' Hspec.
    destruct Hspec as (Hfresh & (i' & Hobj & Hi') & Hnew & Hcells & Hinternals).
    assert (forall a, h1 !! a = None -> h !! a = None) as Hnone.
    { intros a Ha. destruct (h !! a) as [cell|] eqn:Hcell; [|done].
      by rewrite (Hkeep1 _ _ Hcell) in Ha. }
    exists this', h', (Build_FullTransform t c).
    repeat split; auto.
    exists i'. split; auto.
  - intros fromSnapshot toSnapshot.
    destruct (withSnapshotProcessor_spec h this r fromSnapshot toSnapshot Hr)
      as (this' & h' & Hrun & Hfresh & Hcells & Hinternals & Hnew).
    exists this', h'. repeat split; auto; apply Hfresh.
Qed.

(** C10: a default function, when set, is invoked and its result
    returned, whatever the plain default is; without a function the plain
    default is returned when set, and the [noDefaultValue] symbol
    otherwise; [prop()] without argument sets neither. *)
Theorem getModelPropDefaultValue_precedence r (w : World) :
  (forall f, defaultFn r = Some f ->
             getModelPropDefaultValue r w = (DefaultValue (f w).1, (f w).2))
  /\ (forall v, defaultFn r = None -> defaultValue r = Some v ->
                getModelPropDefaultValue r w = (DefaultValue v, w))
  /\ (defaultFn r = None -> defaultValue r = None ->
      getModelPropDefaultValue r w = (noDefaultValue, w))
  /\ (forall h, exists r0,
        internalOf (prop None h).1 (prop None h).2 = Some r0
        /\ getModelPropDefaultValue r0 w = (noDefaultValue, w))
  /\ (forall h f, exists r0,
        internalOf (prop (Some (ArgFunction f)) h).1 (prop (Some (ArgFunction f)) h).2
        = Some r0
        /\ getModelPropDefaultValue r0 w = (DefaultValue (f w).1, (f w).2))
  /\ (forall h v, exists r0,
        internalOf (prop (Some (ArgValue v)) h).1 (prop (Some (ArgValue v)) h).2 = Some r0
        /\ getModelPropDefaultValue r0 w = (DefaultValue v, w)).
Proof.
  unfold getModelPropDefaultValue.
  split; [|split; [|split; [|split; [|split]]]].
  - intros f ->. by destruct (f w).
  - by intros v -> ->.
  - by intros -> ->.
  - intros h. unfold prop.
    match goal with |- context [spreadWithInternal ?r' h] => exists r' end.
    open_spread h this' h' Hspec.
    destruct Hspec as (_ & _ & Hnew & _). split; [exact Hnew|done].
  - intros h f. unfold prop.
    match goal with |- context [spreadWithInternal ?r' h] => exists r' end.
    open_spread h this' h' Hspec.
    destruct Hspec as (_ & _ & Hnew & _). split; [exact Hnew|]. simpl. by destruct (f w).
  - intros h v. unfold prop.
    match goal with |- context [spreadWithInternal ?r' h] => exists r' end.
    open_spread h this' h' Hspec.
    destruct Hspec as (_ & _ & Hnew & _). split; [exact Hnew|done].
Qed.

(** C2 (amended): adding a processor pair [(f, f')] and then a pair
    [(g, g')] to a property without processors gives the incoming
    pipeline [sn => f (g sn)] (the processor added last runs first) and
    the outgoing pipeline [sn => g' (f' sn)] (the processor added last
    runs last): the two orders mirror each other, and the result is what
    a single processor pair with these two functions would give. *)
Theorem withSnapshotProcessor_composition h this r (f f' g g' : JsValue -> JsValue) :
  internalOf this h = Some r ->
  fromSnapshotProcessor r = None ->
  toSnapshotProcessor r = None ->
  exists p1 h1 p2 h2 r2 incoming outgoing,
    withSnapshotProcessor this (Some f) (Some f') h = Some (p1, h1)
    /\ withSnapshotProcessor p1 (Some g) (Some g') h1 = Some (p2, h2)
    /\ internalOf p2 h2 = Some r2
    /\ fromSnapshotProcessor r2 = Some incoming
    /\ toSnapshotProcessor r2 = Some outgoing
    /\ (forall sn, incoming sn = f (g sn))
    /\ (forall sn, outgoing sn = g' (f' sn))
    /\ internalOf this h2 = Some r.
Proof.
  intros Hr Hfrom Hto.
  destruct (withSnapshotProcessor_spec h this r (Some f) (Some f') Hr)
    as (p1 & h1 & Hrun1 & _ & _ & Hkept1 & Hr1).
  destruct (withSnapshotProcessor_spec h1 p1 _ (Some g) (Some g') Hr1)
    as (p2 & h2 & Hrun2 & _ & _ & Hkept2 & Hr2).
  cbn [fromSnapshotProcessor toSnapshotProcessor] in Hr2.
  rewrite Hfrom, Hto in Hr2. cbn [newFromSnapshot newToSnapshot] in Hr2.
  eexists p1, h1, p2, h2, _, _, _.
  split; [exact Hrun1|]. split; [exact Hrun2|]. split; [exact Hr2|].
  cbn [fromSnapshotProcessor toSnapshotProcessor].
  split; [reflexivity|]. split; [reflexivity|]. split; [done|]. split; [done|].
  by apply Hkept2, Hkept1.
Qed.

End ModelPropFacts.

Section ModelPropExamples.

Import ModelProps PropExamples.

(** C2, as stated, fails: with [f] adding one and [g] doubling, the
    incoming pipeline of
    [prop().withSnapshotProcessor(f).withSnapshotProcessor(g)] maps 3 to
    [f (g 3) = 7], not to [g (f 3) = 8], and the outgoing pipeline maps 3
    to [g (f 3) = 8], not to [f (g 3) = 7]. *)
Lemma withSnapshotProcessor_order_counterexample :
  exists r incoming outgoing,
    twoProcessors addOne addOne double double = Some r
    /\ fromSnapshotProcessor r = Some incoming
    /\ toSnapshotProcessor r = Some outgoing
    /\ incoming (VNumber 3) = VNumber 7
    /\ double (addOne (VNumber 3)) = VNumber 8
    /\ incoming (VNumber 3) <> double (addOne (VNumber 3))
    /\ outgoing (VNumber 3) = VNumber 8
    /\ outgoing (VNumber 3) <> addOne (double (VNumber 3)).
Proof.
  eexists _, _, _. split; [reflexivity|]. cbn [fromSnapshotProcessor toSnapshotProcessor].
  split; [reflexivity|]. split; [reflexivity|].
  repeat split; try reflexivity; discriminate.
Qed.

Lemma withSnapshotProcessor_composition_witness :
  exists p2 h2 r2 incoming outgoing,
    internalOf (World := unit) p2 h2 = Some r2
    /\ fromSnapshotProcessor r2 = Some incoming
    /\ toSnapshotProcessor r2 = Some outgoing
    /\ incoming (VNumber 3) = VNumber 7
    /\ outgoing (VNumber 3) = VNumber 8.
Proof.
  destruct (withSnapshotProcessor_composition (World := unit)
              (prop (World := unit) None []).2 (prop (World := unit) None []).1 _
              addOne addOne double double
              eq_refl eq_refl eq_refl)
    as (p1 & h1 & p2 & h2 & r2 & incoming & outgoing
        & _ & _ & Hr2 & Hin & Hout & Hincoming & Houtgoing & _).
  exists p2, h2, r2, incoming, outgoing.
  split; [exact Hr2|]. split; [exact Hin|]. split; [exact Hout|].
  rewrite Hincoming, Houtgoing. split; reflexivity.
Defined.

(** [prop(10)] keeps its [_internal] record when a setter or a transform
    is requested. *)
Lemma builders_leave_receiver_unchanged_witness :
  let h := (prop (World := unit) (Some (ArgValue (VNumber 10))) []).2 in
  exists r,
    internalOf 1%nat h = Some r
    /\ setter r = SetterBoolean false
    /\ (exists this' h',
          withSetter 1%nat None h = Some (this', h')
          /\ h !! this' = None
          /\ internalOf 1%nat h' = Some r
          /\ (setter <$> internalOf this' h') = Some (SetterBoolean true))
    /\ (exists this' h',
          withTransform 1%nat noTransform h = Some (this', h')
          /\ h !! this' = None
          /\ internalOf 1%nat h' = Some r).
Proof.
  intros h.
  destruct (builders_leave_receiver_unchanged h 1%nat _ eq_refl)
    as (Hsetter & Htransform & _).
  eexists. split; [reflexivity|]. split; [reflexivity|]. split.
  - destruct (Hsetter None) as (this' & h' & Hrun & [Hfresh _] & [Hkept _] & Hnew).
    exists this', h'. split; [exact Hrun|]. split; [exact Hfresh|].
    split; [exact Hkept|]. by rewrite Hnew.
  - destruct (Htransform noTransform)
      as (this' & h' & full & Hrun & [Hfresh _] & [Hkept _] & _).
    exists this', h'. split; [exact Hrun|]. split; [exact Hfresh|]. exact Hkept.
Defined.

(** A generator wins over a plain default, and runs. *)
Lemma getModelPropDefaultValue_precedence_witness :
  getModelPropDefaultValue
    {| defaultFn := Some nextId;
       defaultValue := Some (VNumber 0);
       typeChecker := None;
       setter := SetterBoolean false;
       isId := false;
       transform := None;
       fromSnapshotProcessor := None;
       toSnapshotProcessor := None |} 4%nat
  = (DefaultValue (VNumber 4), 5%nat).
Proof.
  destruct (getModelPropDefaultValue_precedence
              {| defaultFn := Some nextId;
                 defaultValue := Some (VNumber 0);
                 typeChecker := None;
                 setter := SetterBoolean false;
                 isId := false;
                 transform := None;
                 fromSnapshotProcessor := None;
                 toSnapshotProcessor := None |} 4%nat) as (Hfn & _).
  exact (Hfn nextId eq_refl).
Defined.

End ModelPropExamples.

(** * Further properties *)

(** ** The reconciler registry *)

Section RegistryFacts.

Import Reconcile ReconcileOrder Examples.

Variable getSnapshot : JsValue -> Heap -> Outcome JsValue.
Variable registerDefaultReconcilers : list Registration -> list Registration.
Variable templateString : JsValue -> string.

Lemma insertByPriority_perm r rs : insertByPriority r rs ≡ₚ r :: rs.
Proof.
  induction rs as [|r' rs IH]; simpl; [done|].
  case_match; [done|]. rewrite IH. apply Permutation_swap.
Qed.

Lemma insertByPriority_sorted r rs :
  StronglySorted byPriority rs -> StronglySorted byPriority (insertByPriority r rs).
Proof.
  induction rs as [|r' rs IH]; intros Hsorted; simpl.
  - repeat constructor.
  - apply StronglySorted_cons in Hsorted as [Hall Hrest].
    destruct (Z.ltb (priority r) (priority r')) eqn:Hlt.
    + apply Z.ltb_lt in Hlt.
      apply StronglySorted_cons. split; [|by apply StronglySorted_cons].
      constructor; [unfold byPriority; lia|].
      eapply Forall_impl; [exact Hall|]. unfold byPriority. intros; simpl in *; lia.
    + apply Z.ltb_ge in Hlt.
      apply StronglySorted_cons. split; [|by apply IH].
      rewrite insertByPriority_perm. by constructor.
Qed.

Lemma sortByPriority_from acc rs :
  StronglySorted byPriority acc ->
  StronglySorted byPriority (foldl (fun acc r => insertByPriority r acc) acc rs)
  /\ foldl (fun acc r => insertByPriority r acc) acc rs ≡ₚ acc ++ rs.
Proof.
  revert acc. induction rs as [|r rs IH]; intros acc Hacc; simpl.
  - split; [done|]. by rewrite app_nil_r.
  - destruct (IH (insertByPriority r acc) (insertByPriority_sorted r acc Hacc)) as [Hs Hp].
    split; [done|]. rewrite Hp, insertByPriority_perm. simpl. apply Permutation_middle.
Qed.

(** A registration that belongs behind every entry goes to the end. *)
Lemma insertByPriority_last r rs :
  Forall (fun a => byPriority a r) rs -> insertByPriority r rs = rs ++ [r].
Proof.
  induction 1 as [|a rs Ha _ IH]; simpl; [done|].
  unfold byPriority in Ha.
  destruct (Z.ltb (priority r) (priority a)) eqn:Hlt; [apply Z.ltb_lt in Hlt; lia|].
  by rewrite IH.
Qed.

(** Sorting a registry that is in order changes nothing. *)
Lemma sortByPriority_sorted_id rs :
  StronglySorted byPriority rs -> sortByPriority rs = rs.
Proof.
  unfold sortByPriority. induction rs as [|r rs IH] using rev_ind; intros Hsorted; [done|].
  apply StronglySorted_app in Hsorted as (Hcross & Hrs & _).
  rewrite foldl_app. simpl. rewrite (IH Hrs).
  apply insertByPriority_last. apply Forall_forall. intros a Ha.
  apply (Hcross a r Ha). by apply list_elem_of_singleton.
Qed.

(** The place a registration is given in a registry that is in order. *)
Lemma insertByPriority_split r rs :
  StronglySorted byPriority rs ->
  exists before after,
    rs = before ++ after
    /\ insertByPriority r rs = before ++ r :: after
    /\ Forall (fun a => (priority a <= priority r)%Z) before
    /\ Forall (fun a => (priority r < priority a)%Z) after.
Proof.
  induction rs as [|r' rs IH]; intros Hsorted; simpl.
  - by exists [], [].
  - apply StronglySorted_cons in Hsorted as [Hall Hrest].
    destruct (Z.ltb (priority r) (priority r')) eqn:Hlt.
    + apply Z.ltb_lt in Hlt. exists [], (r' :: rs). repeat split; [constructor|].
      constructor; [done|]. eapply Forall_impl; [exact Hall|].
      unfold byPriority. intros; simpl in *; lia.
    + apply Z.ltb_ge in Hlt.
      destruct (IH Hrest) as (before & after & -> & Hins & Hbefore & Hafter).
      exists (r' :: before), after. rewrite Hins. repeat split; [|done].
      by constructor.
Qed.

Lemma registerReconciler_unfold p r rs :
  registerReconciler p r rs
  = insertByPriority {| priority := p; reconciler := r |} (sortByPriority rs).
Proof. unfold registerReconciler, sortByPriority. by rewrite foldl_app. Qed.

(** X1: whatever the registry looked like, after [registerReconciler] it
    is in ascending order of priority and holds the old registrations and
    the new one, each as often as before: none is lost or duplicated. *)
Theorem registerReconciler_sorted_permutation p r rs :
  StronglySorted byPriority (registerReconciler p r rs)
  /\ registerReconciler p r rs ≡ₚ {| priority := p; reconciler := r |} :: rs.
Proof.
  unfold registerReconciler, sortByPriority.
  destruct (sortByPriority_from [] (rs ++ [{| priority := p; reconciler := r |}]))
    as [Hsorted Hperm]; [constructor|].
  split; [done|]. rewrite Hperm. simpl. by rewrite Permutation_app_comm.
Qed.

(** X2: on a registry that is in order (as [registerReconciler] leaves
    it), the existing registrations keep their places relative to each
    other, and the new one goes behind every registration of a lower or
    the same priority and in front of every one of a higher priority. *)
Theorem registerReconciler_keeps_order p r rs :
  StronglySorted byPriority rs ->
  exists before after,
    rs = before ++ after
    /\ registerReconciler p r rs
       = before ++ {| priority := p; reconciler := r |} :: after
    /\ Forall (fun a => (priority a <= p)%Z) before
    /\ Forall (fun a => (p < priority a)%Z) after.
Proof.
  intros Hsorted.
  rewrite registerReconciler_unfold, (sortByPriority_sorted_id rs Hsorted).
  apply (insertByPriority_split {| priority := p; reconciler := r |} rs Hsorted).
Qed.

Abbreviation reconcile' :=
  (reconcileSnapshot getSnapshot registerDefaultReconcilers templateString).

(** The loop passes over a run of declining reconcilers. *)
Lemma tryReconcilers_skip_declining before : forall rest i value sn modelPool parentObj h log,
  Forall (fun r => declines r value sn modelPool parentObj) before ->
  exists h',
    tryReconcilers (before ++ rest) i value sn modelPool parentObj h log
    = tryReconcilers rest (i + length before) value sn modelPool parentObj h'
        (log ++ seq i (length before)).
Proof.
  induction before as [|r before IH]; intros rest i value sn modelPool parentObj h log Hall.
  - exists h. simpl. by rewrite Nat.add_0_r, app_nil_r.
  - inversion Hall as [|? ? Hr Hbefore]; subst.
    destruct (Hr h) as [h1 Hrun]. simpl. rewrite Hrun. simpl.
    destruct (IH rest (S i) value sn modelPool parentObj h1 (log ++ [i]) Hbefore)
      as [h2 Hrest].
    exists h2. rewrite Hrest, <- app_assoc. simpl. by rewrite Nat.add_succ_r.
Qed.

(** The reconciler that answers ends the loop. *)
Lemma tryReconcilers_answer r rest i value sn modelPool parentObj out h log :
  answers r value sn modelPool parentObj out ->
  exists h',
    tryReconcilers (r :: rest) i value sn modelPool parentObj h log
    = (Some out, h', log ++ [i]).
Proof.
  intros [Hout Hruns]. destruct (Hruns h) as [h' Hrun]. exists h'.
  simpl. rewrite Hrun. destruct out as [ret|e]; [|done].
  destruct (strictEquals ret VUndefined) eqn:Heq; [|done].
  apply bool_decide_eq_true in Heq. by subst ret.
Qed.

Lemma reconcileSnapshot_after_declining value sn current modelPool parentObj st
    before r after out :
  isPrimitive sn = false ->
  getSnapshot value (heap st) = Returned current ->
  strictEquals current sn = false ->
  registerDefaultReconcilers (reconcilers st) = before ++ r :: after ->
  Forall (fun r0 => declines r0 value sn modelPool parentObj) before ->
  answers r value sn modelPool parentObj out ->
  exists h',
    reconcile' value sn modelPool parentObj st
    = (out, {| reconcilers := before ++ r :: after;
               heap := h';
               invoked := invoked st ++ seq 0 (S (length before)) |}).
Proof.
  intros Hprim Hsnap Hne Hregistry Hbefore Hanswer.
  unfold reconcileSnapshot. rewrite Hprim, Hsnap, Hne, Hregistry.
  destruct (tryReconcilers_skip_declining before (r :: after) 0 value sn modelPool
              parentObj (heap st) (invoked st) Hbefore) as [h1 Hskip].
  destruct (tryReconcilers_answer r after (0 + length before) value sn modelPool
              parentObj out h1 (invoked st ++ seq 0 (length before)) Hanswer)
    as [h2 Hrun].
  rewrite Hskip, Hrun. exists h2.
  by rewrite <- app_assoc, seq_S.
Qed.

(** X3: reconcilers are consulted in registry order and the first that
    does not return [undefined] settles the call: its result is returned,
    or its exception thrown, and no later reconciler is invoked. *)
Theorem reconcileSnapshot_first_answer_wins value sn current modelPool parentObj st
    before r after out :
  isPrimitive sn = false ->
  getSnapshot value (heap st) = Returned current ->
  strictEquals current sn = false ->
  registerDefaultReconcilers (reconcilers st) = before ++ r :: after ->
  Forall (fun r0 => declines r0 value sn modelPool parentObj) before ->
  answers r value sn modelPool parentObj out ->
  exists st',
    reconcile' value sn modelPool parentObj st = (out, st')
    /\ invoked st' = invoked st ++ seq 0 (S (length before))
    /\ reconcilers st' = before ++ r :: after.
Proof.
  intros Hprim Hsnap Hne Hregistry Hbefore Hanswer.
  destruct (reconcileSnapshot_after_declining value sn current modelPool parentObj st
              before r after out Hprim Hsnap Hne Hregistry Hbefore Hanswer) as [h' Hrun].
  eexists. split; [exact Hrun|]. done.
Qed.

(** A registration that belongs in front of every entry goes first. *)
Lemma insertByPriority_first r rs :
  Forall (fun a => (priority r < priority a)%Z) rs -> insertByPriority r rs = r :: rs.
Proof.
  destruct 1 as [|a rs Ha _]; simpl; [done|].
  by rewrite (proj2 (Z.ltb_lt _ _) Ha).
Qed.

(** X4: a reconciler registered with a priority below that of every
    other registration is the first to be consulted: once the default
    reconcilers are in place, its answer to a pair is the result of
    [reconcileSnapshot], and no other reconciler is invoked. *)
Theorem registerReconciler_lowest_priority_first p r rs value sn current modelPool
    parentObj st out :
  Forall (fun a => (p < priority a)%Z) rs ->
  reconcilers st = registerReconciler p r rs ->
  registerDefaultReconcilers (reconcilers st) = reconcilers st ->
  isPrimitive sn = false ->
  getSnapshot value (heap st) = Returned current ->
  strictEquals current sn = false ->
  answers {| priority := p; reconciler := r |} value sn modelPool parentObj out ->
  exists st',
    reconcile' value sn modelPool parentObj st = (out, st')
    /\ invoked st' = invoked st ++ [0%nat].
Proof.
  intros Hlowest Hregistry Hdefaults Hprim Hsnap Hne Hanswer.
  assert (reconcilers st = {| priority := p; reconciler := r |} :: sortByPriority rs)
    as Hfirst.
  { rewrite Hregistry, registerReconciler_unfold. apply insertByPriority_first.
    destruct (sortByPriority_from [] rs) as [_ Hperm]; [constructor|].
    unfold sortByPriority. by rewrite Hperm. }
  destruct (reconcileSnapshot_after_declining value sn current modelPool parentObj st
              [] {| priority := p; reconciler := r |} (sortByPriority rs) out
              Hprim Hsnap Hne) as [h' Hrun]; try done.
  { by rewrite Hdefaults, Hfirst. }
  eexists. split; [exact Hrun|]. done.
Qed.

End RegistryFacts.

Section RegistryExamples.

Import Reconcile ReconcileOrder Examples.

Lemma twoReconcilers_sorted : StronglySorted byPriority (reconcilers twoReconcilers).
Proof. repeat constructor; unfold byPriority; simpl; lia. Qed.

Lemma alwaysClaims_answers p answer value sn :
  answer <> VUndefined ->
  answers {| priority := p; reconciler := alwaysClaims answer |} value sn emptyPool VUndefined
    (Returned answer).
Proof. intros Hdef. split; [congruence|]. intros h. by exists h. Qed.

Lemma alwaysThrows_answers p msg value sn :
  answers {| priority := p; reconciler := alwaysThrows msg |} value sn emptyPool VUndefined
    (Thrown (Failure msg)).
Proof. split; [done|]. intros h. by exists h. Qed.

(** A second registration of priority 0 goes between the one of priority
    0 and the one of priority 5. *)
Lemma registerReconciler_keeps_order_witness :
  exists before after,
    reconcilers twoReconcilers = before ++ after
    /\ registerReconciler 0 (alwaysThrows "late") (reconcilers twoReconcilers)
       = before ++ {| priority := 0; reconciler := alwaysThrows "late" |} :: after
    /\ Forall (fun a => (priority a <= 0)%Z) before
    /\ Forall (fun a => (0 < priority a)%Z) after.
Proof.
  exact (registerReconciler_keeps_order 0 (alwaysThrows "late") (reconcilers twoReconcilers)
           twoReconcilers_sorted).
Defined.

(** The container reconciler passes on a map, the next one claims it. *)
Lemma reconcileSnapshot_first_answer_wins_witness :
  exists st',
    reconcileSnapshot getSnapshotEx registerDefaultsEx templateStringEx
      VUndefined someMap emptyPool VUndefined twoReconcilers
    = (Returned (VString "fallback"), st')
    /\ invoked st' = [0%nat; 1%nat].
Proof.
  destruct (reconcileSnapshot_first_answer_wins getSnapshotEx registerDefaultsEx
              templateStringEx VUndefined someMap VUndefined emptyPool VUndefined
              twoReconcilers
              [{| priority := 0%Z; reconciler := containerReconciler |}]
              {| priority := 5%Z; reconciler := alwaysClaims (VString "fallback") |}
              [] (Returned (VString "fallback")))
    as (st' & Hrun & Hinvoked & _).
  - reflexivity.
  - reflexivity.
  - reflexivity.
  - reflexivity.
  - repeat constructor. by apply containerReconciler_declines.
  - by apply alwaysClaims_answers.
  - exists st'. split; [exact Hrun|exact Hinvoked].
Defined.

(** A reconciler registered below all others rejects the map before
    anyone else sees it. *)
Lemma registerReconciler_lowest_priority_first_witness :
  exists st',
    reconcileSnapshot getSnapshotEx registerDefaultsEx templateStringEx
      VUndefined someMap emptyPool VUndefined
      {| reconcilers :=
           registerReconciler (-1) (alwaysThrows "maps are refused")
             (reconcilers twoReconcilers);
         heap := emptyHeap;
         invoked := [] |}
    = (Thrown (Failure "maps are refused"), st')
    /\ invoked st' = [0%nat].
Proof.
  apply (registerReconciler_lowest_priority_first getSnapshotEx registerDefaultsEx
           templateStringEx (-1) (alwaysThrows "maps are refused")
           (reconcilers twoReconcilers) VUndefined someMap VUndefined emptyPool VUndefined).
  - repeat constructor; simpl; lia.
  - reflexivity.
  - reflexivity.
  - reflexivity.
  - reflexivity.
  - reflexivity.
  - apply alwaysThrows_answers.
Defined.

End RegistryExamples.

(** ** Type-check caches: what invalidation reaches and what it leaves *)

Section CacheFacts.

Import TypeCheck.

(** Invalidating check results never touches the snapshot-processor side. *)
Lemma invalidateAt_snapshot_side cur c :
  toSnapshotProcessorCache (invalidateAt cur c) = toSnapshotProcessorCache c
  /\ typeCheckersWithCachedSnapshotProcessorResultsOfObject (invalidateAt cur c)
     = typeCheckersWithCachedSnapshotProcessorResultsOfObject c.
Proof.
  unfold invalidateAt.
  destruct (typeCheckersWithCachedResultsOfObject c !! cur) as [set|]; [|done].
  cbn [toSnapshotProcessorCache typeCheckersWithCachedSnapshotProcessorResultsOfObject].
  revert c. induction set as [|tc set IH]; intros c; cbn [foldl]; [done|].
  destruct (IH (invalidateCachedResult tc cur c)) as [-> ->].
  unfold invalidateCachedResult. by destruct (checkResultCache c !! tc).
Qed.

Lemma invalidateFrom_snapshot_side fuel t : forall current c c',
  invalidateFrom fuel t current c = Some c' ->
  toSnapshotProcessorCache c' = toSnapshotProcessorCache c
  /\ typeCheckersWithCachedSnapshotProcessorResultsOfObject c'
     = typeCheckersWithCachedSnapshotProcessorResultsOfObject c.
Proof.
  induction fuel as [|fuel IH]; intros [cur|] c c' Hrun; simpl in Hrun;
    try (by injection Hrun as <-); [done|].
  destruct (IH _ _ _ Hrun) as [-> ->]. apply invalidateAt_snapshot_side.
Qed.

Lemma invalidateFrom_keeps_listeners fuel t : forall current c c',
  invalidateFrom fuel t current c = Some c' ->
  resultsHaveListeners c -> resultsHaveListeners c'.
Proof.
  induction fuel as [|fuel IH]; intros [cur|] c c' Hrun Hinv; simpl in Hrun;
    try (by injection Hrun as <-); [done|].
  apply (IH _ _ _ Hrun). by apply resultsHaveListeners_invalidateAt.
Qed.

(** Invalidating snapshot-processor results never touches the check side. *)
Lemma snapshot_invalidation_check_side obj (set : list CheckerId) : forall c,
  let c' := foldl (fun acc tc => invalidateSnapshotProcessorCachedResult tc obj acc) c set in
  checkResultCache c' = checkResultCache c
  /\ typeCheckersWithCachedResultsOfObject c' = typeCheckersWithCachedResultsOfObject c.
Proof.
  induction set as [|tc set IH]; intros c; cbn [foldl]; [done|].
  by destruct (IH (invalidateSnapshotProcessorCachedResult tc obj c)) as [-> ->].
Qed.

(** X5: a value that is not a tracked node is validated on every call,
    at the path of the call: [check] stores nothing for it, so a second
    call runs the validation again. *)
Theorem check_untracked_value_not_cached tc f value p q s :
  _check tc = Some f ->
  isTweakedObject value (tree s) = None ->
  let s1 := (check tc value p s).2 in
  check tc value p s
  = ((f value p (tree s) (caches s)).1,
     {| tree := tree s;
        caches := (f value p (tree s) (caches s)).2;
        calls := calls s ++ [CallCheck (identity tc) value p] |})
  /\ (check tc value q s1).1 = (f value q (tree s) (caches s1)).1
  /\ calls (check tc value q s1).2
     = calls s ++ [CallCheck (identity tc) value p; CallCheck (identity tc) value q].
Proof.
  intros Hcheck Huntracked s1.
  assert (forall p0 s0, tree s0 = tree s ->
            check tc value p0 s0
            = ((f value p0 (tree s) (caches s0)).1,
               {| tree := tree s;
                  caches := (f value p0 (tree s) (caches s0)).2;
                  calls := calls s0 ++ [CallCheck (identity tc) value p0] |})) as Hrun.
  { intros p0 s0 Htree. unfold check, unchecked, runCheck.
    rewrite Hcheck, Htree, Huntracked. by destruct (f value p0 (tree s) (caches s0)). }
  subst s1. rewrite (Hrun p s eq_refl). split; [done|]. cbn [snd].
  match goal with |- context [check tc value q ?st] =>
    rewrite (Hrun q st eq_refl)
  end.
  cbn [fst snd calls caches]. split; [done|].
  by rewrite <- app_assoc.
Qed.

(** X6: invalidating the check results of [obj] is local to the chain of
    [obj] and its ancestors: for every object off that chain (a sibling, a
    descendant) the listener entry and every cached result stay as they
    were, and the snapshot-processor caches and listeners are not touched
    at all. *)
Theorem invalidateCachedTypeCheckerResult_is_local obj chain s :
  ancestorChain (tree s) obj chain ->
  exists s',
    invalidateCachedTypeCheckerResult obj s = Some s'
    /\ (forall a, a ∉ chain ->
          typeCheckersWithCachedResultsOfObject (caches s') !! a
          = typeCheckersWithCachedResultsOfObject (caches s) !! a
          /\ forall tc, getCachedResult tc a (caches s') = getCachedResult tc a (caches s))
    /\ toSnapshotProcessorCache (caches s') = toSnapshotProcessorCache (caches s)
    /\ typeCheckersWithCachedSnapshotProcessorResultsOfObject (caches s')
       = typeCheckersWithCachedSnapshotProcessorResultsOfObject (caches s).
Proof.
  intros Hchain.
  destruct (invalidateFrom_chain _ _ _ Hchain (S (size (objectParents (tree s))))
              (caches s) (ancestorChain_length _ _ _ Hchain))
    as (c' & Hrun & _ & _ & _ & Hout).
  destruct (invalidateFrom_snapshot_side _ _ _ _ _ Hrun) as [Hcache Hlisteners].
  unfold invalidateCachedTypeCheckerResult. rewrite Hrun.
  eexists. split; [reflexivity|]. simpl. split; [exact Hout|]. by split.
Qed.

(** X7: a change below a checked node makes the next check validate
    again. After a first check of a tracked node (a miss) the result is
    cached; invalidating any object that has the node on its ancestor
    chain removes it, and the check that follows runs the validation a
    second time, with the empty path, and caches and listens again. *)
Theorem check_revalidates_after_invalidation tc f value obj changed chain p q s :
  _check tc = Some f ->
  isTweakedObject value (tree s) = Some obj ->
  getCachedResult (identity tc) obj (caches s) = None ->
  ancestorChain (tree s) changed chain ->
  obj ∈ chain ->
  let s1 := (check tc value p s).2 in
  exists s2,
    invalidateCachedTypeCheckerResult changed s1 = Some s2
    /\ getCachedResult (identity tc) obj (caches s2) = None
    /\ let s3 := (check tc value q s2).2 in
       calls s3
       = calls s ++ [CallCheck (identity tc) value emptyPath;
                     CallCheck (identity tc) value emptyPath]
       /\ is_Some (getCachedResult (identity tc) obj (caches s3))
       /\ identity tc ∈ listenersOf obj (caches s3).
Proof.
  intros Hcheck Htracked Hmiss Hchain Hobj s1.
  assert (forall p0 s0, tree s0 = tree s ->
            getCachedResult (identity tc) obj (caches s0) = None ->
            (check tc value p0 s0).2
            = {| tree := tree s;
                 caches := setCachedResult (identity tc) obj
                             (f value emptyPath (tree s) (caches s0)).1
                             (f value emptyPath (tree s) (caches s0)).2;
                 calls := calls s0 ++ [CallCheck (identity tc) value emptyPath] |}) as Hrun.
  { intros p0 s0 Htree Hnone. unfold check, unchecked, runCheck.
    rewrite Hcheck, Htree, Htracked, Hnone.
    by destruct (f value emptyPath (tree s) (caches s0)). }
  subst s1. rewrite (Hrun p s eq_refl Hmiss).
  match goal with |- context [invalidateCachedTypeCheckerResult changed ?st] =>
    set (s1 := st) end.
  destruct (invalidateFrom_chain _ _ _ Hchain (S (size (objectParents (tree s))))
              (caches s1) (ancestorChain_length _ _ _ Hchain))
    as (c' & Hinv & _ & _ & Hin & _).
  exists {| tree := tree s; caches := c'; calls := calls s1 |}.
  assert (getCachedResult (identity tc) obj c' = None) as Hgone.
  { apply (Hin obj Hobj). apply listenersOf_setCachedResult. }
  split; [|split; [exact Hgone|]].
  - unfold invalidateCachedTypeCheckerResult. subst s1. cbn [tree caches] in *.
    by rewrite Hinv.
  - intros s3. subst s3.
    rewrite (Hrun q {| tree := tree s; caches := c'; calls := calls s1 |} eq_refl Hgone).
    subst s1. cbn [calls caches].
    split; [by rewrite <- app_assoc|]. split.
    + rewrite getCachedResult_setCachedResult. by eexists.
    + apply listenersOf_setCachedResult.
Qed.

(** X8: the link between the caches and the listener registry is kept.
    If every cached check result has its checker among the listeners of
    its object, this still holds after a [check] (whose validation
    function keeps it), after an invalidation of check results and after
    an invalidation of snapshot-processor results; so no cached result can
    be out of reach of a later invalidation. *)
Theorem resultsHaveListeners_is_kept s :
  resultsHaveListeners (caches s) ->
  (forall tc value p,
      (forall f, _check tc = Some f ->
                 forall v q t c, resultsHaveListeners c ->
                                 resultsHaveListeners (f v q t c).2) ->
      resultsHaveListeners (caches (check tc value p s).2))
  /\ (forall obj s', invalidateCachedTypeCheckerResult obj s = Some s' ->
                     resultsHaveListeners (caches s'))
  /\ (forall obj, resultsHaveListeners
                    (caches (invalidateCachedToSnapshotProcessorResult obj s))).
Proof.
  intros Hinv. split; [|split].
  - intros tc value p Hf. unfold check, unchecked.
    destruct (_check tc) as [f|] eqn:Hcheck; [|done].
    specialize (Hf f eq_refl).
    destruct (isTweakedObject value (tree s)) as [obj|].
    + destruct (getCachedResult (identity tc) obj (caches s)); [done|].
      unfold runCheck.
      pose proof (Hf value emptyPath (tree s) (caches s) Hinv) as Hkept.
      destruct (f value emptyPath (tree s) (caches s)) as [r c']. cbn [snd caches] in *.
      by apply resultsHaveListeners_setCachedResult.
    + unfold runCheck.
      pose proof (Hf value p (tree s) (caches s) Hinv) as Hkept.
      by destruct (f value p (tree s) (caches s)).
  - intros obj s' Hrun. unfold invalidateCachedTypeCheckerResult in Hrun.
    destruct (invalidateFrom _ _ _ _) as [c'|] eqn:Hfrom; [|done].
    injection Hrun as <-. cbn [caches].
    by apply (invalidateFrom_keeps_listeners _ _ _ _ _ Hfrom).
  - intros obj. unfold invalidateCachedToSnapshotProcessorResult.
    destruct (typeCheckersWithCachedSnapshotProcessorResultsOfObject (caches s) !! obj)
      as [set|]; [|done].
    destruct (snapshot_invalidation_check_side obj set (caches s)) as [Hcache Hlisteners].
    intros tc a r. unfold getCachedResult, listenersOf. cbn [caches checkResultCache
      typeCheckersWithCachedResultsOfObject]. rewrite Hcache, Hlisteners. apply Hinv.
Qed.

(** X9: invalidating the snapshot-processor results of [obj] reaches
    [obj] alone: it does not go up to the parents, every other object
    keeps its processor listeners and each checker's cached value for it,
    and the check-result caches and their listeners are not touched. *)
Theorem invalidateCachedToSnapshotProcessorResult_is_local obj s :
  let s' := invalidateCachedToSnapshotProcessorResult obj s in
  tree s' = tree s
  /\ calls s' = calls s
  /\ checkResultCache (caches s') = checkResultCache (caches s)
  /\ typeCheckersWithCachedResultsOfObject (caches s')
     = typeCheckersWithCachedResultsOfObject (caches s)
  /\ forall other, other <> obj ->
       typeCheckersWithCachedSnapshotProcessorResultsOfObject (caches s') !! other
       = typeCheckersWithCachedSnapshotProcessorResultsOfObject (caches s) !! other
       /\ forall tc, snapshotProcessorCacheOf tc (caches s') !! other
                     = snapshotProcessorCacheOf tc (caches s) !! other.
Proof.
  unfold invalidateCachedToSnapshotProcessorResult.
  destruct (typeCheckersWithCachedSnapshotProcessorResultsOfObject (caches s) !! obj)
    as [set|] eqn:Hset; cbn zeta; [|done].
  destruct (snapshot_invalidation_check_side obj set (caches s)) as [Hcache Hlisteners].
  destruct (invalidate_all_snapshot_listeners obj set (caches s)) as [Hreg Hget].
  cbn [tree calls caches checkResultCache typeCheckersWithCachedResultsOfObject
       typeCheckersWithCachedSnapshotProcessorResultsOfObject].
  repeat split; try done.
  - rewrite Hreg. by rewrite lookup_delete_ne.
  - intros tc. etrans; [apply (Hget tc other)|]. rewrite decide_False; [done|].
    by intros [_ ?].
Qed.

End CacheFacts.

Section LateCheckFacts.

Import TypeCheck LateCheck.

Context {World : Type}.

Lemma callLate_cached (ltc : LateTypeChecker World) tc w :
  cached ltc = Some tc -> callLate ltc w = (tc, ltc, w).
Proof. intros Hcached. unfold callLate. by rewrite Hcached. Qed.

Lemma callLateTimes_cached n (ltc : LateTypeChecker World) tc w :
  cached ltc = Some tc -> callLateTimes n ltc w = (replicate n tc, ltc, w).
Proof.
  intros Hcached. induction n as [|n IH]; simpl; [done|].
  by rewrite (callLate_cached ltc tc w Hcached), IH.
Qed.

(** X10: a late type checker evaluates its deferred function once, on the
    first call; every later call, however many, returns that same checker
    and runs nothing. *)
Theorem lateTypeChecker_evaluates_once (fn : World -> TypeChecker * World) n w :
  let '(tc, ltc1, w1) := callLate (lateTypeChecker fn) w in
  (tc, w1) = fn w
  /\ cached ltc1 = Some tc
  /\ callLateTimes n ltc1 w1 = (replicate n tc, ltc1, w1).
Proof.
  unfold callLate, lateTypeChecker. cbn [cached LateCheck.fn].
  destruct (fn w) as [tc w1]. split; [done|]. split; [done|].
  by apply callLateTimes_cached.
Qed.

End LateCheckFacts.

Section CacheExamples.

Import TypeCheck CheckerExamples.

Lemma emptyCaches_have_listeners : resultsHaveListeners emptyCaches.
Proof. intros tc obj r Hget. unfold getCachedResult in Hget. done. Qed.

Lemma treeEx_array_chain : ancestorChain treeEx 11%positive [11%positive; 12%positive].
Proof.
  apply chain_step with (p := 12%positive); [reflexivity|].
  apply chain_root. reflexivity.
Qed.

Lemma treeEx_todo_chain :
  ancestorChain treeEx 10%positive [10%positive; 11%positive; 12%positive].
Proof. apply chain_step with (p := 11%positive); [reflexivity|]. apply treeEx_array_chain. Qed.

(** A number is validated at each call. *)
Lemma check_untracked_value_not_cached_witness :
  calls (check todoChecker (VNumber 3) [inl "b"]
           (check todoChecker (VNumber 3) [inl "a"] freshState).2).2
  = [CallCheck 1%positive (VNumber 3) [inl "a"]; CallCheck 1%positive (VNumber 3) [inl "b"]].
Proof.
  exact (proj2 (proj2 (check_untracked_value_not_cached todoChecker rejectTitle (VNumber 3)
                         [inl "a"] [inl "b"] freshState eq_refl eq_refl))).
Defined.

(** Invalidating the array leaves what is cached for the todo inside it. *)
Lemma invalidateCachedTypeCheckerResult_is_local_witness :
  exists s',
    invalidateCachedTypeCheckerResult 11%positive cachedState = Some s'
    /\ getCachedResult 1%positive 10%positive (caches s') = Some (Some titleError)
    /\ getCachedResult 2%positive 10%positive (caches s') = Some None.
Proof.
  destruct (invalidateCachedTypeCheckerResult_is_local 11%positive
              [11%positive; 12%positive] cachedState treeEx_array_chain)
    as (s' & Hrun & Hout & _).
  exists s'. split; [exact Hrun|].
  destruct (Hout 10%positive) as [_ Hkept].
  - intros Hin. apply elem_of_cons in Hin as [Hin|Hin]; [discriminate|].
    apply list_elem_of_singleton in Hin. discriminate.
  - by rewrite !Hkept.
Defined.

(** The array is checked, the todo inside it changes, the array is
    checked again: two validations. *)
Lemma check_revalidates_after_invalidation_witness :
  exists s2,
    invalidateCachedTypeCheckerResult 10%positive
      (check todoChecker (VObject CArray 11%positive) [inl "list"] freshState).2 = Some s2
    /\ calls (check todoChecker (VObject CArray 11%positive) [inl "list"] s2).2
       = [CallCheck 1%positive (VObject CArray 11%positive) [];
          CallCheck 1%positive (VObject CArray 11%positive) []].
Proof.
  destruct (check_revalidates_after_invalidation todoChecker rejectTitle
              (VObject CArray 11%positive) 11%positive 10%positive
              [10%positive; 11%positive; 12%positive] [inl "list"] [inl "list"] freshState
              eq_refl eq_refl eq_refl treeEx_todo_chain)
    as (s2 & Hrun & _ & Hcalls & _).
  - repeat constructor.
  - exists s2. split; [exact Hrun|exact Hcalls].
Defined.

(** A first check on empty caches keeps the link. *)
Lemma resultsHaveListeners_is_kept_witness :
  resultsHaveListeners (caches (check todoChecker todo [] freshState).2).
Proof.
  destruct (resultsHaveListeners_is_kept freshState emptyCaches_have_listeners)
    as (Hcheck & _).
  apply Hcheck. intros f [= <-] v q t c Hc. exact Hc.
Defined.

End CacheExamples.

(** ** Chains of builders and the transform cache *)

Section PropChainFacts.

Import ModelProps PropChains.

Context {World : Type}.

Implicit Types (h : list (Cell World)) (r : Internal World).

(** What a call of [withSetter] on a valid receiver does. *)
Lemma withSetter_spec h this r mode :
  internalOf this h = Some r ->
  exists this' h',
    withSetter this mode h = Some (this', h')
    /\ (forall a r0, internalOf a h = Some r0 -> internalOf a h' = Some r0)
    /\ internalOf this' h'
       = Some {| defaultFn := defaultFn r;
                 defaultValue := defaultValue r;
                 typeChecker := typeChecker r;
                 setter := default (SetterBoolean true) mode;
                 isId := isId r;
                 transform := transform r;
                 fromSnapshotProcessor := fromSnapshotProcessor r;
                 toSnapshotProcessor := toSnapshotProcessor r |}.
Proof.
  intros Hr. unfold withSetter. rewrite Hr.
  match goal with |- context [spreadWithInternal ?r' h] =>
    pose proof (spreadWithInternal_spec r' h) as Hspec;
    destruct (spreadWithInternal r' h) as [this' h']
  end.
  destruct Hspec as (_ & _ & Hnew & _ & Hinternals).
  exists this', h'. by repeat split.
Qed.

(** A chain of processor pairs on a receiver that already has both
    pipelines. *)
Lemma withSnapshotProcessors_onto ps : forall h this r incoming outgoing,
  internalOf this h = Some r ->
  fromSnapshotProcessor r = Some incoming ->
  toSnapshotProcessor r = Some outgoing ->
  exists this' h' r' incoming' outgoing',
    withSnapshotProcessors ps this h = Some (this', h')
    /\ internalOf this' h' = Some r'
    /\ fromSnapshotProcessor r' = Some incoming'
    /\ toSnapshotProcessor r' = Some outgoing'
    /\ (forall sn, incoming' sn = incoming (foldr (fun ft x => ft.1 x) sn ps))
    /\ (forall sn, outgoing' sn = foldl (fun x ft => ft.2 x) (outgoing sn) ps)
    /\ (forall a r0, internalOf a h = Some r0 -> internalOf a h' = Some r0)
    /\ (defaultFn r', defaultValue r', typeChecker r', setter r', isId r', transform r')
       = (defaultFn r, defaultValue r, typeChecker r, setter r, isId r, transform r).
Proof.
  induction ps as [|[f t] ps IH]; intros h this r incoming outgoing Hr Hfrom Hto.
  - exists this, h, r, incoming, outgoing. by repeat split.
  - destruct (withSnapshotProcessor_spec h this r (Some f) (Some t) Hr)
      as (p1 & h1 & Hrun1 & _ & _ & Hkept1 & Hr1).
    rewrite Hfrom, Hto in Hr1. cbn [newFromSnapshot newToSnapshot] in Hr1.
    destruct (IH h1 p1 _ _ _ Hr1 eq_refl eq_refl)
      as (p' & h' & r' & incoming' & outgoing' & Hrun & Hr' & Hfrom' & Hto'
          & Hin & Hout & Hkept & Hfields).
    exists p', h', r', incoming', outgoing'.
    cbn [withSnapshotProcessors]. rewrite Hrun1.
    split; [exact Hrun|]. split; [exact Hr'|]. split; [exact Hfrom'|]. split; [exact Hto'|].
    split; [intros sn; by rewrite Hin|]. split; [intros sn; by rewrite Hout|].
    split; [intros a r0 Ha; by apply Hkept, Hkept1|]. exact Hfields.
Qed.

(** X11: a chain of calls [withSnapshotProcessor(f1, t1)], ...,
    [withSnapshotProcessor(fn, tn)] on a property without processors
    behaves as one processor: the incoming pipeline is
    [f1 (f2 (... (fn sn)))], the processor added last running first, the
    outgoing pipeline is [tn (... (t2 (t1 sn)))], the processor added last
    running last; no other field changes and the receiver is left as it
    was. *)
Theorem withSnapshotProcessors_compose ft ps h this r :
  internalOf this h = Some r ->
  fromSnapshotProcessor r = None ->
  toSnapshotProcessor r = None ->
  exists this' h' r' incoming outgoing,
    withSnapshotProcessors (ft :: ps) this h = Some (this', h')
    /\ internalOf this' h' = Some r'
    /\ fromSnapshotProcessor r' = Some incoming
    /\ toSnapshotProcessor r' = Some outgoing
    /\ (forall sn, incoming sn = foldr (fun ft x => ft.1 x) sn (ft :: ps))
    /\ (forall sn, outgoing sn = foldl (fun x ft => ft.2 x) sn (ft :: ps))
    /\ internalOf this h' = Some r
    /\ (defaultFn r', defaultValue r', typeChecker r', setter r', isId r', transform r')
       = (defaultFn r, defaultValue r, typeChecker r, setter r, isId r, transform r).
Proof.
  intros Hr Hfrom Hto. destruct ft as [f t].
  destruct (withSnapshotProcessor_spec h this r (Some f) (Some t) Hr)
    as (p1 & h1 & Hrun1 & _ & _ & Hkept1 & Hr1).
  rewrite Hfrom, Hto in Hr1. cbn [newFromSnapshot newToSnapshot] in Hr1.
  destruct (withSnapshotProcessors_onto ps h1 p1 _ f t Hr1 eq_refl eq_refl)
    as (p' & h' & r' & incoming & outgoing & Hrun & Hr' & Hfrom' & Hto'
        & Hin & Hout & Hkept & Hfields).
  exists p', h', r', incoming, outgoing.
  cbn [withSnapshotProcessors]. rewrite Hrun1.
  split; [exact Hrun|]. split; [exact Hr'|]. split; [exact Hfrom'|]. split; [exact Hto'|].
  split; [exact Hin|]. split; [exact Hout|].
  split; [by apply Hkept, Hkept1|]. exact Hfields.
Qed.

(** X12: [withSetter] and [withSnapshotProcessor] can be called in either
    order: the two resulting properties have the same [_internal]
    fields. *)
Theorem withSetter_withSnapshotProcessor_commute h this r mode fromSnapshot toSnapshot :
  internalOf this h = Some r ->
  exists a1 h1 a h2 b1 h3 b h4 final,
    withSetter this mode h = Some (a1, h1)
    /\ withSnapshotProcessor a1 fromSnapshot toSnapshot h1 = Some (a, h2)
    /\ withSnapshotProcessor this fromSnapshot toSnapshot h = Some (b1, h3)
    /\ withSetter b1 mode h3 = Some (b, h4)
    /\ internalOf a h2 = Some final
    /\ internalOf b h4 = Some final
    /\ setter final = default (SetterBoolean true) mode
    /\ fromSnapshotProcessor final = newFromSnapshot (fromSnapshotProcessor r) fromSnapshot
    /\ toSnapshotProcessor final = newToSnapshot (toSnapshotProcessor r) toSnapshot.
Proof.
  intros Hr.
  destruct (withSetter_spec h this r mode Hr) as (a1 & h1 & Hrun1 & _ & Ha1).
  destruct (withSnapshotProcessor_spec h1 a1 _ fromSnapshot toSnapshot Ha1)
    as (a & h2 & Hrun2 & _ & _ & _ & Ha).
  destruct (withSnapshotProcessor_spec h this r fromSnapshot toSnapshot Hr)
    as (b1 & h3 & Hrun3 & _ & _ & _ & Hb1).
  destruct (withSetter_spec h3 b1 _ mode Hb1) as (b & h4 & Hrun4 & _ & Hb).
  eexists a1, h1, a, h2, b1, h3, b, h4, _.
  split; [exact Hrun1|]. split; [exact Hrun2|]. split; [exact Hrun3|].
  split; [exact Hrun4|]. split; [exact Ha|]. split; [exact Hb|]. done.
Qed.

End PropChainFacts.

Section TransformFacts.

Import ModelProps PropChains.

Context {World : Type}.

Implicit Types (h : list (Cell World)) (st : ModuleState World).

Lemma transformCacheOf_cell full h m :
  h !! cache full = Some (TransformCache m) -> transformCacheOf full h = m.
Proof. intros Hcell. unfold transformCacheOf. by rewrite Hcell. Qed.

Lemma transformCacheOf_stored full h m m' :
  h !! cache full = Some (TransformCache m) ->
  <[cache full := TransformCache m']> h !! cache full = Some (TransformCache m').
Proof. intros Hcell. apply list_lookup_insert_eq. by apply lookup_lt_Some in Hcell. Qed.

(** Reading the pair of one property after the entry of a property has
    been replaced in the cache of its model. *)
Lemma cachedPair_stored full h m model modelCache' model' propName' :
  h !! cache full = Some (TransformCache m) ->
  cachedPair full model' propName'
    (<[cache full := TransformCache (<[model := modelCache']> m)]> h)
  = if decide (model' = model) then modelCache' !! propName'
    else cachedPair full model' propName' h.
Proof.
  intros Hcell. unfold cachedPair.
  rewrite (transformCacheOf_cell _ _ _ (transformCacheOf_stored _ _ _ _ Hcell)),
    (transformCacheOf_cell _ _ _ Hcell).
  case_decide as Hmodel.
  - subst model'. by rewrite lookup_insert_eq.
  - by rewrite lookup_insert_ne.
Qed.

Lemma cachedPair_default full h m model propName :
  h !! cache full = Some (TransformCache m) ->
  default ∅ (m !! model) !! propName = cachedPair full model propName h.
Proof.
  intros Hcell. unfold cachedPair. rewrite (transformCacheOf_cell _ _ _ Hcell).
  destruct (m !! model); [done|]. apply lookup_empty.
Qed.

(** What one call of the [transform] method does. *)
Lemma fullTransform_spec full originalValue model propName h m :
  h !! cache full = Some (TransformCache m) ->
  let offered :=
    match cachedPair full model propName h with
    | Some (original, transformed) =>
        if strictEquals original originalValue then transformed else VUndefined
    | None => VUndefined
    end in
  let result :=
    if isNullish originalValue then originalValue
    else userTransform (transformObject full) originalValue offered in
  let h' := (fullTransform full originalValue model propName h).2 in
  (fullTransform full originalValue model propName h).1 = result
  /\ cachedPair full model propName h' = Some (originalValue, result)
  /\ (forall model' propName',
        (model', propName') <> (model, propName) ->
        cachedPair full model' propName' h' = cachedPair full model' propName' h)
  /\ (exists m', h' !! cache full = Some (TransformCache m'))
  /\ (forall a, a <> cache full -> h' !! a = h !! a).
Proof.
  intros Hcell offered result h'. subst offered result h'.
  unfold fullTransform. cbn [fst snd].
  rewrite (transformCacheOf_cell _ _ _ Hcell), (cachedPair_default _ _ _ _ _ Hcell).
  split; [done|]. split; [|split; [|split]].
  - rewrite (cachedPair_stored _ _ _ _ _ _ _ Hcell).
    rewrite decide_True by done. by rewrite lookup_insert_eq.
  - intros model' propName' Hother.
    rewrite (cachedPair_stored _ _ _ _ _ _ _ Hcell).
    case_decide as Hmodel; [|done]. subst model'.
    assert (propName' <> propName) by congruence.
    rewrite lookup_insert_ne by done. by apply cachedPair_default.
  - eexists. by apply (transformCacheOf_stored _ _ _ _ Hcell).
  - intros a Ha. by apply list_lookup_insert_ne.
Qed.

(** Induction on the programs of a user's [untransform], with the
    programs of every nested transform at hand. *)
Lemma UntransformProgram_induction (P : UntransformProgram -> Prop) :
  (forall originalValue, P (Return originalValue)) ->
  (forall next, P next -> P (CacheTransformedValue next)) ->
  (forall inner transformedValue model propName next,
      (forall v, P (userUntransform (transformObject inner) v)) ->
      (forall v, P (next v)) ->
      P (Untransform inner transformedValue model propName next)) ->
  forall program, P program.
Proof.
  intros Hreturn Hcache Hnested. fix IH 1.
  intros [originalValue|next|inner transformedValue model propName next].
  - apply Hreturn.
  - apply Hcache, IH.
  - apply Hnested.
    + intros v. destruct inner as [[transform untransform] c]. apply IH.
    + intros v. apply IH.
Qed.

(** Replacing the map of one model in the cache of [full] leaves every
    pair that the new map holds as the old one did. *)
Lemma cachedPair_insert_frame full' model' propName' full model modelCache' h :
  (cache full' = cache full -> model' = model ->
   modelCache' !! propName' = default ∅ (transformCacheOf full h !! model) !! propName') ->
  cachedPair full' model' propName'
    (<[cache full := TransformCache (<[model := modelCache']> (transformCacheOf full h))]> h)
  = cachedPair full' model' propName' h.
Proof.
  intros Hsame. unfold cachedPair.
  destruct (decide (cache full' = cache full)) as [Haddr|Haddr].
  - assert (transformCacheOf full' h = transformCacheOf full h) as Hcache
      by (unfold transformCacheOf; by rewrite Haddr).
    destruct (decide (cache full < length h)%nat) as [Hin|Hout].
    + assert (transformCacheOf full'
                (<[cache full := TransformCache (<[model := modelCache']> (transformCacheOf full h))]> h)
              = <[model := modelCache']> (transformCacheOf full h)) as ->.
      { unfold transformCacheOf at 1. rewrite Haddr.
        by rewrite list_lookup_insert_eq. }
      rewrite Hcache.
      destruct (decide (model' = model)) as [->|Hmodel].
      * rewrite lookup_insert_eq, (Hsame Haddr eq_refl).
        destruct (transformCacheOf full h !! model); [done|]. apply lookup_empty.
      * by rewrite lookup_insert_ne.
    + rewrite list_insert_ge by lia. done.
  - assert (transformCacheOf full'
              (<[cache full := TransformCache (<[model := modelCache']> (transformCacheOf full h))]> h)
            = transformCacheOf full' h) as ->; [|done].
    unfold transformCacheOf. by rewrite list_lookup_insert_ne.
Qed.

Lemma cacheCell_insert a full m0 h m :
  h !! a = Some (TransformCache m) ->
  exists m', <[cache full := TransformCache m0]> h !! a = Some (TransformCache m').
Proof.
  intros Hcell. destruct (decide (cache full = a)) as [<-|Ha].
  - exists m0. apply list_lookup_insert_eq. by apply lookup_lt_Some in Hcell.
  - exists m. by rewrite list_lookup_insert_ne.
Qed.

Lemma getOrCreateModelCache_spec full model h :
  (forall a m, h !! a = Some (TransformCache m) ->
     exists m', getOrCreateModelCache full model h !! a = Some (TransformCache m'))
  /\ (forall a, a <> cache full -> getOrCreateModelCache full model h !! a = h !! a)
  /\ (forall full' model' propName',
        cachedPair full' model' propName' (getOrCreateModelCache full model h)
        = cachedPair full' model' propName' h).
Proof.
  unfold getOrCreateModelCache.
  destruct (transformCacheOf full h !! model) as [modelCache|] eqn:Hmodel.
  - split; [by eauto|]. by split.
  - split; [|split].
    + intros a m Hcell. by apply (cacheCell_insert _ _ _ _ m).
    + intros a Ha. by rewrite list_lookup_insert_ne.
    + intros full' model' propName'. apply cachedPair_insert_frame.
      intros _ _. by rewrite Hmodel.
Qed.

(** The pieces of the [untransform] machinery, one by one. *)
Lemma runsAs_return (v : JsValue) :
  runsAs (World := World) (fun st => (v, st)) (fun requested => (v, requested)) [].
Proof. intros st. cbn [fst snd]. split; [done|]. split; [by eauto|]. by split. Qed.

Lemma runsAs_cacheTransformedValue run outcome runs :
  runsAs (World := World) run outcome runs ->
  runsAs (fun st => run (cacheTransformedValueFn st)) (fun _ => outcome true) runs.
Proof. intros Hrun st. apply (Hrun (cacheTransformedValueFn st)). Qed.

Lemma runsAs_untransformMethod untransform outcome runs full transformedValue model propName :
  runsAs (World := World) untransform outcome runs ->
  runsAs (untransformMethod untransform full transformedValue model propName)
    (fun _ => outcome false) ((cache full, model, propName) :: runs).
Proof.
  intros Hrun st. unfold untransformMethod.
  destruct (getOrCreateModelCache_spec full model (store st)) as (Hcells0 & Hframe0 & Hpairs0).
  destruct (Hrun {| cacheTransformResult := false;
                    store := getOrCreateModelCache full model (store st) |})
    as (Hout & Hcells & Hframe & Hpairs).
  destruct (untransform _) as [originalValue st1]. cbn [fst snd store cacheTransformResult] in *.
  split; [done|]. split; [|split].
  - intros a m Hcell. destruct (Hcells0 a m Hcell) as [m0 Hcell0].
    destruct (Hcells a m0 Hcell0) as [m1 Hcell1].
    by apply (cacheCell_insert _ _ _ _ m1).
  - intros a Ha.
    assert (a <> cache full) as Hne.
    { intros ->. apply (Ha model propName). left. }
    rewrite list_lookup_insert_ne by done.
    rewrite Hframe, Hframe0; [done|done|].
    intros model' propName' Hin. apply (Ha model' propName'). by right.
  - intros full' model' propName' Hnotin.
    rewrite cachedPair_insert_frame.
    + rewrite Hpairs, Hpairs0; [done|]. intros Hin. apply Hnotin. by right.
    + intros Haddr ->.
      assert (propName' <> propName) as Hprop.
      { intros ->. apply Hnotin. rewrite Haddr. left. }
      destruct (cacheTransformResult st1);
        [by rewrite lookup_insert_ne|by rewrite lookup_delete_ne].
Qed.

Lemma runsAs_then first (outcome1 : JsValue * bool) runs1 rest outcome2 runs2 :
  runsAs (World := World) first (fun _ => outcome1) runs1 ->
  (forall v, runsAs (rest v) (outcome2 v) (runs2 v)) ->
  runsAs (fun st => let '(v, st1) := first st in rest v st1)
    (fun _ => outcome2 outcome1.1 outcome1.2) (runs1 ++ runs2 outcome1.1).
Proof.
  intros Hfirst Hrest st.
  destruct (Hfirst st) as (Hout1 & Hcells1 & Hframe1 & Hpairs1).
  destruct (first st) as [v st1]. cbn [fst snd] in *.
  rewrite <- Hout1. cbn [fst snd].
  destruct (Hrest v st1) as (Hout2 & Hcells2 & Hframe2 & Hpairs2).
  split; [done|]. split; [|split].
  - intros a m Hcell. destruct (Hcells1 a m Hcell) as [m1 Hcell1]. by apply (Hcells2 a m1).
  - intros a Ha. rewrite Hframe2, Hframe1; [done| |].
    + intros model propName Hin. apply (Ha model propName), elem_of_app. by left.
    + intros model propName Hin. apply (Ha model propName), elem_of_app. by right.
  - intros full model propName Hnotin. rewrite Hpairs2, Hpairs1; [done| |].
    + intros Hin. apply Hnotin, elem_of_app. by left.
    + intros Hin. apply Hnotin, elem_of_app. by right.
Qed.

(** A run of a user's [untransform] returns what [untransformOutcome]
    tells and touches the caches of the calls in [untransformsRun]
    alone. *)
Lemma runUntransformProgram_runsAs program :
  runsAs (World := World) (runUntransformProgram program) (untransformOutcome program)
    (untransformsRun program).
Proof.
  induction program as [originalValue|next IH|inner transformedValue model propName next IHinner IHnext]
    using UntransformProgram_induction.
  - apply runsAs_return.
  - intros st. apply (runsAs_cacheTransformedValue _ _ _ IH st).
  - intros st. cbn [runUntransformProgram untransformOutcome untransformsRun].
    destruct (isNullish transformedValue).
    + exact (runsAs_then _ (transformedValue, false) _ _ _ _
               (runsAs_untransformMethod _ _ _ inner transformedValue model propName
                  (runsAs_return transformedValue))
               IHnext st).
    + exact (runsAs_then _ _ _ _ _ _
               (runsAs_untransformMethod _ _ _ inner transformedValue model propName
                  (IHinner transformedValue))
               IHnext st).
Qed.

(** What one call of the [untransform] method does. *)
Lemma fullUntransform_runsAs full transformedValue model propName :
  let program := userUntransform (transformObject full) transformedValue in
  runsAs (World := World) (fullUntransform full transformedValue model propName)
    (fun _ => if isNullish transformedValue then (transformedValue, false)
              else untransformOutcome program false)
    ((cache full, model, propName)
       :: if isNullish transformedValue then [] else untransformsRun program).
Proof.
  intros program. unfold fullUntransform.
  destruct (isNullish transformedValue).
  - apply (runsAs_untransformMethod _ _ _ full transformedValue model propName
             (runsAs_return transformedValue)).
  - apply (runsAs_untransformMethod _ _ _ full transformedValue model propName
             (runUntransformProgram_runsAs program)).
Qed.

(** The pair of the property itself follows the shared variable as the
    user's code leaves it. *)
Lemma fullUntransform_pair full transformedValue model propName st m :
  store st !! cache full = Some (TransformCache m) ->
  let result := fullUntransform full transformedValue model propName st in
  cachedPair full model propName (store result.2)
  = (if cacheTransformResult result.2 then Some (result.1, transformedValue) else None)
  /\ exists m', store result.2 !! cache full = Some (TransformCache m').
Proof.
  intros Hcell result.
  split; [|by apply (fullUntransform_runsAs full transformedValue model propName st) in Hcell].
  subst result. unfold fullUntransform, untransformMethod.
  set (untransform :=
         if isNullish transformedValue then (fun st0 : ModuleState World => (transformedValue, st0))
         else runUntransformProgram (userUntransform (transformObject full) transformedValue)).
  assert (exists outcome runs, runsAs untransform outcome runs) as (outcome & runs & Hrun).
  { subst untransform. destruct (isNullish transformedValue).
    - eexists _, _. apply runsAs_return.
    - eexists _, _. apply runUntransformProgram_runsAs. }
  destruct (getOrCreateModelCache_spec full model (store st)) as (Hcells0 & _).
  destruct (Hcells0 _ _ Hcell) as [m0 Hcell0].
  destruct (Hrun {| cacheTransformResult := false;
                    store := getOrCreateModelCache full model (store st) |})
    as (_ & Hcells & _).
  destruct (Hcells _ _ Hcell0) as [m1 Hcell1].
  destruct (untransform _) as [originalValue st1]. cbn [fst snd store cacheTransformResult] in *.
  rewrite (transformCacheOf_cell _ _ _ Hcell1).
  rewrite (cachedPair_stored _ _ _ _ _ _ _ Hcell1), decide_True by done.
  destruct (cacheTransformResult st1); [apply lookup_insert_eq|apply lookup_delete_eq].
Qed.

(** X13: the [transform] method offers the cached transformed value to
    the user's transform exactly when the original value is the one it
    was computed from: repeating the call with the same original passes
    the previous result on, a call with another original passes
    [undefined]; [null] and [undefined] are returned as they are, without
    the user's transform. *)
Theorem fullTransform_offers_cached_value full originalValue model propName h m :
  h !! cache full = Some (TransformCache m) ->
  let first := (fullTransform full originalValue model propName h).1 in
  let h1 := (fullTransform full originalValue model propName h).2 in
  (isNullish originalValue = true -> first = originalValue)
  /\ (isNullish originalValue = false ->
      (fullTransform full originalValue model propName h1).1
      = userTransform (transformObject full) originalValue first)
  /\ (forall other,
        other <> originalValue -> isNullish other = false ->
        (fullTransform full other model propName h1).1
        = userTransform (transformObject full) other VUndefined).
Proof.
  intros Hcell first h1.
  destruct (fullTransform_spec full originalValue model propName h m Hcell)
    as (Hfirst & Hpair & _ & [m1 Hcell1] & _).
  fold first in Hfirst. fold h1 in Hpair, Hcell1. rewrite <- Hfirst in Hpair.
  split; [|split].
  - intros Hnull. rewrite Hfirst. by rewrite Hnull.
  - intros Hvalue.
    destruct (fullTransform_spec full originalValue model propName h1 m1 Hcell1)
      as (Hsecond & _).
    rewrite Hsecond, Hpair, Hvalue.
    unfold strictEquals. by rewrite bool_decide_eq_true_2.
  - intros other Hother Hvalue.
    destruct (fullTransform_spec full other model propName h1 m1 Hcell1) as (Hsecond & _).
    rewrite Hsecond, Hpair, Hvalue.
    unfold strictEquals. by rewrite bool_decide_eq_false_2.
Qed.

(** X14: going back and forth.  The [untransform] method keeps the pair
    of the original it returns and the transformed value it was given
    exactly when the shared variable [cacheTransformResult] is set at the
    moment the user's [untransform] returns; a [transform] of that
    original is then offered the transformed value, and [undefined]
    otherwise.  The method resets the variable before the user's code
    runs, and so does every nested [untransform] method: a user's
    function that only returns has the entry deleted, one that calls
    [cacheTransformedValue()] and returns has the pair kept, and a
    request made before a nested [untransform] counts for nothing, the
    variable being then as the nested call and the code after it leave
    it.  [null] and [undefined] are returned as they are and their entry
    is deleted. *)
Theorem fullUntransform_then_transform full transformedValue model propName st m :
  store st !! cache full = Some (TransformCache m) ->
  let original := (fullUntransform full transformedValue model propName st).1 in
  let st1 := (fullUntransform full transformedValue model propName st).2 in
  let program := userUntransform (transformObject full) transformedValue in
  let kept := cacheTransformResult st1 in
  cachedPair full model propName (store st1)
  = (if kept then Some (original, transformedValue) else None)
  /\ (isNullish original = false ->
      (fullTransform full original model propName (store st1)).1
      = userTransform (transformObject full) original
          (if kept then transformedValue else VUndefined))
  /\ (isNullish transformedValue = true -> original = transformedValue /\ kept = false)
  /\ (isNullish transformedValue = false ->
      (original, kept) = untransformOutcome program false
      /\ (forall originalValue,
            program = Return originalValue -> original = originalValue /\ kept = false)
      /\ (forall originalValue,
            program = CacheTransformedValue (Return originalValue) ->
            original = originalValue /\ kept = true)
      /\ (forall inner v model' propName' next,
            program = CacheTransformedValue (Untransform inner v model' propName' next) ->
            let inside :=
              if isNullish v then (v, false)
              else untransformOutcome (userUntransform (transformObject inner) v) false in
            (original, kept) = untransformOutcome (next inside.1) inside.2)).
Proof.
  intros Hcell original st1 program kept.
  destruct (fullUntransform_pair full transformedValue model propName st m Hcell)
    as (Hpair & [m1 Hcell1]).
  destruct (fullUntransform_runsAs full transformedValue model propName st) as (Hout & _).
  fold original st1 in Hpair, Hout. fold st1 in Hcell1. fold kept in Hpair, Hout.
  fold program in Hout.
  split; [exact Hpair|]. split; [|split].
  - intros Horiginal.
    destruct (fullTransform_spec full original model propName (store st1) m1 Hcell1)
      as (Hnext & _).
    rewrite Hnext, Hpair, Horiginal. destruct kept; [|done].
    unfold strictEquals. by rewrite bool_decide_eq_true_2.
  - intros Hnull. rewrite Hnull in Hout. by injection Hout.
  - intros Hvalue. rewrite Hvalue in Hout.
    split; [exact Hout|]. split; [|split].
    + intros originalValue Hprogram. rewrite Hprogram in Hout. by injection Hout.
    + intros originalValue Hprogram. rewrite Hprogram in Hout. by injection Hout.
    + intros inner v model' propName' next Hprogram inside.
      by rewrite Hprogram in Hout.
Qed.

(** X15: what [transform] and [untransform] write.  A [transform] for
    one property of one model changes the pair of no other property and
    of no other model, and writes to no cell of the store but the cache of
    its transform.  An [untransform] overwrites the shared variable
    [cacheTransformResult], whatever it held, with what the user's code
    leaves there after the reset (so what the variable held at the call
    makes no difference to the call); in the store it writes to the
    caches of the [untransform] methods that run, its own and the nested
    ones, and changes no pair but those of their models and properties.
    When the user's code runs no nested [untransform], that is the cache
    of this transform and the pair of this property alone. *)
Theorem transform_cache_is_per_property full value model propName st m :
  store st !! cache full = Some (TransformCache m) ->
  let program := userUntransform (transformObject full) value in
  let after_transform := (fullTransform full value model propName (store st)).2 in
  let after_untransform := (fullUntransform full value model propName st).2 in
  let runs :=
    (cache full, model, propName) :: if isNullish value then [] else untransformsRun program in
  (forall model' propName',
      (model', propName') <> (model, propName) ->
      cachedPair full model' propName' after_transform
      = cachedPair full model' propName' (store st))
  /\ (forall a, a <> cache full -> after_transform !! a = store st !! a)
  /\ cacheTransformResult after_untransform
     = (if isNullish value then false else (untransformOutcome program false).2)
  /\ (forall st',
        store st' = store st ->
        fullUntransform full value model propName st'
        = fullUntransform full value model propName st)
  /\ (forall full' model' propName',
        (cache full', model', propName') ∉ runs ->
        cachedPair full' model' propName' (store after_untransform)
        = cachedPair full' model' propName' (store st))
  /\ (forall a,
        (forall model' propName', (a, model', propName') ∉ runs) ->
        store after_untransform !! a = store st !! a)
  /\ ((isNullish value = false -> untransformsRun program = []) ->
      (forall model' propName',
          (model', propName') <> (model, propName) ->
          cachedPair full model' propName' (store after_untransform)
          = cachedPair full model' propName' (store st))
      /\ (forall a, a <> cache full -> store after_untransform !! a = store st !! a)).
Proof.
  intros Hcell program after_transform after_untransform runs.
  destruct (fullTransform_spec full value model propName (store st) m Hcell)
    as (_ & _ & Hothers & _ & Hcells).
  destruct (fullUntransform_runsAs full value model propName st)
    as (Hout & _ & Hframe & Hpairs).
  fold program in Hout, Hframe, Hpairs. fold runs in Hframe, Hpairs.
  fold after_untransform in Hout, Hframe, Hpairs.
  split; [exact Hothers|]. split; [exact Hcells|].
  split; [|split; [|split; [exact Hpairs|split; [exact Hframe|]]]].
  - apply (f_equal snd) in Hout. cbn [snd] in Hout. rewrite Hout.
    by destruct (isNullish value).
  - intros st' Hstore. unfold fullUntransform, untransformMethod. by rewrite Hstore.
  - intros Hplain.
    assert (runs = [(cache full, model, propName)]) as Hruns.
    { subst runs. destruct (isNullish value); [done|]. by rewrite Hplain. }
    split.
    + intros model' propName' Hother. apply Hpairs. rewrite Hruns.
      intros Hin. apply list_elem_of_singleton in Hin. congruence.
    + intros a Ha. apply Hframe. intros model' propName'. rewrite Hruns.
      intros Hin. apply list_elem_of_singleton in Hin. congruence.
Qed.

End TransformFacts.

Section PropChainExamples.

Import ModelProps PropChains PropExamples.

(** Three processor pairs on [prop()]: the snapshot 3 comes in as
    [3 * 2 * 2 + 1] and goes out as [(3 + 1) * 2 + 1]. *)
Lemma withSnapshotProcessors_compose_witness :
  exists this' h' r' incoming outgoing,
    withSnapshotProcessors (World := unit)
      [(addOne, addOne); (double, double); (double, addOne)]
      (prop (World := unit) None []).1 (prop (World := unit) None []).2 = Some (this', h')
    /\ internalOf this' h' = Some r'
    /\ fromSnapshotProcessor r' = Some incoming
    /\ toSnapshotProcessor r' = Some outgoing
    /\ incoming (VNumber 3) = VNumber 13
    /\ outgoing (VNumber 3) = VNumber 9.
Proof.
  destruct (withSnapshotProcessors_compose (World := unit) (addOne, addOne)
              [(double, double); (double, addOne)]
              (prop (World := unit) None []).2 (prop (World := unit) None []).1 _ eq_refl eq_refl eq_refl)
    as (this' & h' & r' & incoming & outgoing & Hrun & Hr' & Hfrom & Hto & Hin & Hout & _).
  exists this', h', r', incoming, outgoing.
  split; [exact Hrun|]. split; [exact Hr'|]. split; [exact Hfrom|]. split; [exact Hto|].
  rewrite Hin, Hout. split; reflexivity.
Defined.

(** A setter and a processor on [prop()], in both orders. *)
Lemma withSetter_withSnapshotProcessor_commute_witness :
  exists a h2 b h4 final,
    internalOf (World := unit) a h2 = Some final
    /\ internalOf b h4 = Some final
    /\ a = 5%nat /\ b = 5%nat
    /\ setter final = SetterAssign.
Proof.
  destruct (withSetter_withSnapshotProcessor_commute (World := unit)
              (prop (World := unit) None []).2 (prop (World := unit) None []).1 _ (Some SetterAssign)
              (Some addOne) None eq_refl)
    as (a1 & h1 & a & h2 & b1 & h3 & b & h4 & final
        & Hrun1 & Hrun2 & Hrun3 & Hrun4 & Ha & Hb & Hsetter & _).
  exists a, h2, b, h4, final.
  split; [exact Ha|]. split; [exact Hb|].
  injection Hrun1 as <- <-. injection Hrun2 as <- <-.
  injection Hrun3 as <- <-. injection Hrun4 as <- <-.
  split; [reflexivity|]. split; [reflexivity|]. exact Hsetter.
Defined.

(** The store right after [toFullTransform(boxNumber)]: the cache is the
    only cell. *)
Lemma boxNumber_cell :
  (toFullTransform (World := unit) boxNumber []).2
    !! cache (toFullTransform (World := unit) boxNumber []).1
  = Some (TransformCache ∅).
Proof. reflexivity. Qed.

(** The second transform of 7 is handed the box made by the first. *)
Lemma fullTransform_offers_cached_value_witness :
  let full := (toFullTransform (World := unit) boxNumber []).1 in
  let h := (toFullTransform (World := unit) boxNumber []).2 in
  let h1 := (fullTransform full (VNumber 7) 1%positive (inl "when") h).2 in
  (fullTransform full (VNumber 7) 1%positive (inl "when") h1).1
  = userTransform boxNumber (VNumber 7) (VString "boxed").
Proof.
  intros full h h1.
  destruct (fullTransform_offers_cached_value full (VNumber 7) 1%positive (inl "when")
              h ∅ boxNumber_cell) as (_ & Hsame & _).
  exact (Hsame eq_refl).
Defined.

(** Unboxing asks for the pair to be kept; boxing 7 again is handed the
    box that was unboxed.  An [untransform] that asks and then unwraps
    through a transform that does not ask ends with its own pair
    deleted. *)
Lemma fullUntransform_then_transform_witness :
  let full := (toFullTransform (World := unit) boxNumber []).1 in
  let st := {| cacheTransformResult := false;
               store := (toFullTransform (World := unit) boxNumber []).2 |} in
  let st1 := (fullUntransform full (VString "old box") 1%positive (inl "when") st).2 in
  cachedPair full 1%positive (inl "when") (store st1) = Some (VNumber 7, VString "old box")
  /\ (fullTransform full (VNumber 7) 1%positive (inl "when") (store st1)).1 = VString "old box"
  /\ let inner := (toFullTransform (World := unit) noTransform []).1 in
     let h0 := (toFullTransform (World := unit) noTransform []).2 in
     let outer := (toFullTransform (unwrapThrough inner) h0).1 in
     let st' := {| cacheTransformResult := false;
                   store := (toFullTransform (unwrapThrough inner) h0).2 |} in
     let st2 := (fullUntransform outer (VString "wrapped") 1%positive (inl "when") st').2 in
     cacheTransformResult st2 = false
     /\ cachedPair outer 1%positive (inl "when") (store st2) = None.
Proof.
  intros full st st1.
  destruct (fullUntransform_then_transform full (VString "old box") 1%positive
              (inl "when") st ∅ boxNumber_cell) as (Hpair & Hnext & _ & Hvalue).
  destruct (Hvalue eq_refl) as (_ & _ & Hasked & _).
  destruct (Hasked (VNumber 7) eq_refl) as [Horiginal Hkept].
  rewrite Hkept, Horiginal in Hpair. rewrite Horiginal, Hkept in Hnext.
  split; [exact Hpair|]. split; [exact (Hnext eq_refl)|].
  intros inner h0 outer st' st2.
  destruct (fullUntransform_then_transform outer (VString "wrapped") 1%positive
              (inl "when") st' ∅ eq_refl) as (Hpair' & _ & _ & Hvalue').
  destruct (Hvalue' eq_refl) as (Hout' & _).
  pose proof (f_equal snd Hout') as Hkept'. cbn [snd] in Hkept'.
  rewrite Hkept' in Hpair'.
  split; [exact Hkept'|exact Hpair'].
Defined.

(** Boxing the [when] property of model 1 leaves its [until] property
    and model 2 without a pair.  Unwrapping [when] of model 1 through the
    boxing transform runs two [untransform] methods; the pair that the
    outer transform holds for model 2 is as before, and the shared
    variable, [false] at the call, ends as the nested call left it. *)
Lemma transform_cache_is_per_property_witness :
  let full := (toFullTransform (World := unit) boxNumber []).1 in
  let st := {| cacheTransformResult := false;
               store := (toFullTransform (World := unit) boxNumber []).2 |} in
  let h1 := (fullTransform full (VNumber 7) 1%positive (inl "when") (store st)).2 in
  cachedPair full 1%positive (inl "until") h1 = None
  /\ cachedPair full 2%positive (inl "when") h1 = None
  /\ let outer := (toFullTransform (unwrapThrough full) h1).1 in
     let h2 := (toFullTransform (unwrapThrough full) h1).2 in
     let st' := {| cacheTransformResult := false;
                   store := (fullTransform outer (VNumber 3) 2%positive (inl "when") h2).2 |} in
     let st2 := (fullUntransform outer (VString "wrapped") 1%positive (inl "when") st').2 in
     cachedPair outer 2%positive (inl "when") (store st2) = Some (VNumber 3, VNumber 3)
     /\ cacheTransformResult st2 = true.
Proof.
  intros full st h1.
  destruct (transform_cache_is_per_property full (VNumber 7) 1%positive (inl "when")
              st ∅ boxNumber_cell) as (Hothers & _).
  assert ((1%positive, inl "until") <> (1%positive, inl "when" : PathElement)) as Hprop
    by discriminate.
  assert ((2%positive, inl "when") <> (1%positive, inl "when" : PathElement)) as Hmodel
    by discriminate.
  split; [exact (Hothers 1%positive (inl "until") Hprop)|].
  split; [exact (Hothers 2%positive (inl "when") Hmodel)|].
  intros outer h2 st' st2.
  destruct (transform_cache_is_per_property outer (VString "wrapped") 1%positive (inl "when")
              st' (<[2%positive := {[ inl "when" := (VNumber 3, VNumber 3) ]}]> ∅) eq_refl)
    as (_ & _ & Hvariable & _ & Hpairs & _).
  split; [|exact Hvariable].
  refine (eq_trans (Hpairs outer 2%positive (inl "when") _) eq_refl).
  intros Hin.
  repeat (apply elem_of_cons in Hin as [Heq|Hin]; [discriminate Heq|]; cbn in Hin).
  by apply elem_of_nil in Hin.
Defined.

End PropChainExamples.

Section InvalidationTwice.

Import TypeCheck.

Lemma invalidateAt_without_listeners cur c :
  typeCheckersWithCachedResultsOfObject c !! cur = None -> invalidateAt cur c = c.
Proof. intros Hnone. unfold invalidateAt. by rewrite Hnone. Qed.

Lemma invalidateFrom_without_listeners t obj chain :
  ancestorChain t obj chain ->
  forall fuel c,
    (length chain <= fuel)%nat ->
    (forall a, a ∈ chain -> typeCheckersWithCachedResultsOfObject c !! a = None) ->
    invalidateFrom fuel t (Some obj) c = Some c.
Proof.
  induction 1 as [obj Hroot|obj p rest Hparent Hchain IH]; intros fuel c Hfuel Hnone;
    (destruct fuel as [|fuel]; [simpl in Hfuel; lia|]); cbn [invalidateFrom].
  - rewrite Hroot, invalidateAt_without_listeners; [by destruct fuel|].
    apply Hnone. by apply list_elem_of_singleton.
  - rewrite Hparent, invalidateAt_without_listeners by (apply Hnone; left).
    apply IH; [simpl in Hfuel; lia|]. intros a Ha. apply Hnone. by right.
Qed.

(** X16: invalidating twice is invalidating once. A second invalidation
    of the check results of [obj] finds no listener on the chain and
    leaves the state exactly as the first one left it, and so does a
    second invalidation of its snapshot-processor results. *)
Theorem invalidation_is_idempotent obj chain s :
  ancestorChain (tree s) obj chain ->
  (exists s',
      invalidateCachedTypeCheckerResult obj s = Some s'
      /\ invalidateCachedTypeCheckerResult obj s' = Some s')
  /\ invalidateCachedToSnapshotProcessorResult obj
       (invalidateCachedToSnapshotProcessorResult obj s)
     = invalidateCachedToSnapshotProcessorResult obj s.
Proof.
  intros Hchain. split.
  - destruct (invalidateFrom_chain _ _ _ Hchain (S (size (objectParents (tree s))))
                (caches s) (ancestorChain_length _ _ _ Hchain))
      as (c' & Hrun & _ & _ & Hin & _).
    exists {| tree := tree s; caches := c'; calls := calls s |}.
    unfold invalidateCachedTypeCheckerResult. rewrite Hrun. split; [done|].
    cbn [tree caches calls].
    rewrite (invalidateFrom_without_listeners _ _ _ Hchain); [done| |].
    + apply (ancestorChain_length _ _ _ Hchain).
    + intros a Ha. by apply (Hin a Ha).
  - pose proof (invalidateCachedToSnapshotProcessorResult_clears obj s) as [Hgone _].
    cbn zeta in Hgone.
    unfold invalidateCachedToSnapshotProcessorResult at 1. by rewrite Hgone.
Qed.

End InvalidationTwice.

Section InvalidationTwiceExamples.

Import TypeCheck CheckerExamples.

Lemma invalidation_is_idempotent_witness :
  exists s',
    invalidateCachedTypeCheckerResult 10%positive cachedState = Some s'
    /\ invalidateCachedTypeCheckerResult 10%positive s' = Some s'.
Proof.
  exact (proj1 (invalidation_is_idempotent 10%positive
                  [10%positive; 11%positive; 12%positive] cachedState treeEx_todo_chain)).
Defined.

End InvalidationTwiceExamples.
